(** * ChASE: the Chebyshev polynomial filter of EleChASE/include/filter.hpp

    A shallow embedding of [filter] and of the part of the Elemental
    interface it calls (diagonal get/shift/set, column-range views, the
    Hermitian multiply on views, the entrywise 1-norm), followed by the
    properties of the routine: the degree-0 early return, restoration of
    the operator, the cost metric, the frame of the vector blocks, the
    per-column meaning of the batched, deflating recurrence. *)

From Stdlib Require Import ZArith Lia Floats.
From stdpp Require Import base list.

Local Open Scope Z_scope.

(** ** Scalars

    [typedef double Real] and the template parameter [F] ([Real] itself or
    [Complex<Real>]).  The routine only combines scalars through the
    operations below, so they are kept as an interface; [DoubleScalars]
    at the end of the definitions instantiates it with IEEE binary64. *)

Class Scalars := {
  Real : Type;
  F : Type;
  r_zero : Real;                       (* 0.0 *)
  r_one : Real;                        (* 1.0 *)
  r_two : Real;                        (* 2.0, also the int 2 promoted *)
  radd : Real → Real → Real;
  rsub : Real → Real → Real;
  rmul : Real → Real → Real;
  rdiv : Real → Real → Real;
  ropp : Real → Real;
  r_isnan : Real → bool;               (* std::isnan *)
  fof : Real → F;                      (* the conversion F(x) *)
  fadd : F → F → F;
  fmul : F → F → F;
  fconj : F → F;
  fabs : F → Real
}.

(** ** Machine integers

    [int] is 32-bit and signed.  Values are kept in [Z]; an operation whose
    mathematical result leaves the range has no defined result. *)

Definition INT_MIN : Z := -2147483648.
Definition INT_MAX : Z := 2147483647.

Definition int_ok (z : Z) : bool := (INT_MIN <=? z) && (z <=? INT_MAX).

(** ** Distributed matrices

    A [DistMatrix<T>] is kept as its height and the list of its columns
    (Elemental stores column-major).  The width is the number of columns. *)

Record DistMatrix (T : Type) := mkDist { Height : nat; Cols : list (list T) }.
Arguments mkDist {T} _ _.
Arguments Height {T} _.
Arguments Cols {T} _.

Definition Width {T} (M : DistMatrix T) : nat := length (Cols M).

Inductive UpperOrLower := LOWER | UPPER.

Inductive Buffer := BufA | BufV | BufW.

(** A view of rows [vi, vi+vheight) and columns [vj, vj+vwidth). *)
Record view := mkView { vi : nat; vj : nat; vheight : nat; vwidth : nat }.

Definition in_cols (vw : view) (c : nat) : bool :=
  ((vj vw <=? c) && (c <? vj vw + vwidth vw))%nat.

Definition in_rows (first height : nat) (r : nat) : bool :=
  ((first <=? r) && (r <? first + height))%nat.

Section Elemental.
Context {Sc : Scalars}.

Definition f_zero : F := fof r_zero.

Definition Get (M : DistMatrix F) (r c : nat) : F :=
  default f_zero (Cols M !! c ≫= λ col, col !! r).

Definition DiagonalLength (M : DistMatrix F) : nat :=
  Nat.min (Height M) (Width M).

(** [GetDiagonal(A)]: the entries A(i,i). *)
Definition GetDiagonal (M : DistMatrix F) : list F :=
  (λ i, Get M i i) <$> seq 0 (DiagonalLength M).

(** [ShiftDiagonal(A, alpha)]: A(i,i) += alpha. *)
Definition ShiftDiagonal (M : DistMatrix F) (alpha : Real) : DistMatrix F :=
  mkDist (Height M)
    (imap (λ c col, if (c <? Height M)%nat
                    then alter (λ x, fadd x (fof alpha)) c col
                    else col) (Cols M)).

(** [SetDiagonal(A, d)]: A(i,i) = d(i). *)
Definition SetDiagonal (M : DistMatrix F) (d : list F) : DistMatrix F :=
  mkDist (Height M)
    (imap (λ c col, match d !! c with
                    | Some x => if (c <? Height M)%nat then <[c := x]> col else col
                    | None => col
                    end) (Cols M)).

(** [EntrywiseNorm(M, 1)]: the sum of the moduli of all entries. *)
Definition EntrywiseNorm1 (M : DistMatrix F) : Real :=
  foldl (λ acc x, radd acc (fabs x)) r_zero (concat (Cols M)).

(** [M.AssertValidSubmatrix(i, j, height, width)] raises a LogicError
    when an index or a dimension is negative or the block leaves the
    matrix; [true] means that the assertion holds. *)
Definition AssertValidSubmatrix (M : DistMatrix F) (i j height width : Z) : bool :=
  negb ((i <? 0) || (j <? 0))
  && negb ((height <? 0) || (width <? 0))
  && negb ((Z.of_nat (Height M) <? i + height) || (Z.of_nat (Width M) <? j + width)).

(** [View(B, M, i, j, height, width)].  A release build of Elemental does
    not check the block: a view that leaves the matrix has no defined
    meaning, which is [None] here. *)
Definition View (M : DistMatrix F) (i j height width : Z) : option view :=
  if AssertValidSubmatrix M i j height width
  then Some (mkView (Z.to_nat i) (Z.to_nat j) (Z.to_nat height) (Z.to_nat width))
  else None.

(** The entry (r,k) of the Hermitian matrix of which only the [uplo]
    triangle of [A] is stored. *)
Definition herm_entry (uplo : UpperOrLower) (A : DistMatrix F) (r k : nat) : F :=
  match uplo with
  | LOWER => if (k <=? r)%nat then Get A r k else fconj (Get A k r)
  | UPPER => if (r <=? k)%nat then Get A r k else fconj (Get A k r)
  end.

(** Row [r] of the product of the Hermitian matrix with the column [b]. *)
Definition herm_row_times (uplo : UpperOrLower) (A : DistMatrix F) (r : nat)
    (b : list F) : F :=
  foldl (λ acc k, fadd acc (fmul (herm_entry uplo A r k) (default f_zero (b !! k))))
    f_zero (seq 0 (Height A)).

(** One column of [C := alpha A B + beta C]: [b] is a column of the block
    whose view starts at row [bi], [c] the column of the block whose view
    has the rows [ci, ci+height); only these rows of [c] change. *)
Definition hemm_column (uplo : UpperOrLower) (alpha : F) (A : DistMatrix F)
    (bi : nat) (b : list F) (beta : F) (ci height : nat) (c : list F) : list F :=
  imap (λ r x, if in_rows ci height r
               then fadd (fmul alpha (herm_row_times uplo A (r - ci) (drop bi b)))
                         (fmul beta x)
               else x) c.

(** [Hemm(LEFT, uplo, alpha, A, B_view, beta, C_view)]: column k of the
    view of [C] is updated from column k of the view of [B]. *)
Definition Hemm (uplo : UpperOrLower) (alpha : F) (A : DistMatrix F)
    (B : DistMatrix F) (bv : view) (beta : F) (C : DistMatrix F) (cv : view)
    : DistMatrix F :=
  mkDist (Height C)
    (imap (λ c col, if in_cols cv c
                    then hemm_column uplo alpha A
                           (vi bv) (default [] (Cols B !! (c - vj cv + vj bv)%nat))
                           beta (vi cv) (vheight cv) col
                    else col) (Cols C)).

(** One column of the assignment [W_view = V_view]: row k of the source
    view goes to row k of the target view. *)
Definition copy_column (si : nat) (src : list F) (di height : nat) (dst : list F)
    : list F :=
  imap (λ r x, if in_rows di height r then default x (src !! (r - di + si)%nat) else x) dst.

(** [Dst_view = Src_view] for two views of the same shape: the viewed
    block of the source is copied into the viewed block of the target. *)
Definition CopyView (Src : DistMatrix F) (sv : view) (Dst : DistMatrix F) (dv : view)
    : DistMatrix F :=
  mkDist (Height Dst)
    (imap (λ c col, if in_cols dv c
                    then copy_column (vi sv) (default [] (Cols Src !! (c - vj dv + vj sv)%nat))
                           (vi dv) (vheight dv) col
                    else col) (Cols Dst)).

End Elemental.

(** ** Outcomes of a call

    What the caller owns: the operator and the two vector blocks. *)

Record Mem {Sc : Scalars} := mkMem {
  mA : DistMatrix F;
  mV : DistMatrix F;
  mW : DistMatrix F
}.
Arguments mkMem {Sc} _ _ _.
Arguments mA {Sc} _.
Arguments mV {Sc} _.
Arguments mW {Sc} _.

(** What process 0 writes to [std::cout]: the lines "X contains nan
    <line>" and the line with alpha, start and width. *)
Inductive Msg {Sc : Scalars} :=
| ContainsNan (b : Buffer) (line : Z)
| AlphaStartWidth (alpha : F) (start width : Z).
Arguments ContainsNan {Sc} _ _.
Arguments AlphaStartWidth {Sc} _ _ _.

(** A computation yields a value, or leaves through the LogicError of
    [AssertValidSubmatrix], or ends the job with [exit(1)], or has no
    defined result (signed overflow, a read outside [degrees], a view
    outside its matrix).  The first two record the memory as it is left. *)
Inductive Res {Sc : Scalars} (X : Type) :=
| Val (x : X)
| Throws (m : Mem)
| Exits (m : Mem) (out : list Msg)
| Undef.
Arguments Val {Sc X} _.
Arguments Throws {Sc X} _.
Arguments Exits {Sc X} _ _.
Arguments Undef {Sc X}.

#[global] Instance Res_ret {Sc : Scalars} : MRet Res := λ X x, Val x.

#[global] Instance Res_bind {Sc : Scalars} : MBind Res := λ X Y k r,
  match r with
  | Val x => k x
  | Throws m => Throws m
  | Exits m out => Exits m out
  | Undef => Undef
  end.

(** The local variables of [filter] that change while it runs, with the
    three matrices, and the list of the calls of [View] so far: the source
    line of the call and the first column and the width it asks for. *)
Record Frame {Sc : Scalars} := mkFrame {
  A : DistMatrix F;
  V : DistMatrix F;
  W : DistMatrix F;
  start : Z;
  width : Z;
  j : Z;
  sigma : Real;
  total_vcts_filtered : Z;
  views : list (Z * Z * Z)
}.
Arguments mkFrame {Sc} _ _ _ _ _ _ _ _ _.
Arguments A {Sc} _.
Arguments V {Sc} _.
Arguments W {Sc} _.
Arguments start {Sc} _.
Arguments width {Sc} _.
Arguments j {Sc} _.
Arguments sigma {Sc} _.
Arguments total_vcts_filtered {Sc} _.
Arguments views {Sc} _.

Section Filter.
Context {Sc : Scalars}.

Definition mem_of (fr : Frame) : Mem := mkMem (A fr) (V fr) (W fr).

Definition set_A (M : DistMatrix F) (fr : Frame) : Frame :=
  mkFrame M (V fr) (W fr) (start fr) (width fr) (j fr) (sigma fr)
    (total_vcts_filtered fr) (views fr).
Definition set_V (M : DistMatrix F) (fr : Frame) : Frame :=
  mkFrame (A fr) M (W fr) (start fr) (width fr) (j fr) (sigma fr)
    (total_vcts_filtered fr) (views fr).
Definition set_W (M : DistMatrix F) (fr : Frame) : Frame :=
  mkFrame (A fr) (V fr) M (start fr) (width fr) (j fr) (sigma fr)
    (total_vcts_filtered fr) (views fr).
Definition set_start (z : Z) (fr : Frame) : Frame :=
  mkFrame (A fr) (V fr) (W fr) z (width fr) (j fr) (sigma fr)
    (total_vcts_filtered fr) (views fr).
Definition set_width (z : Z) (fr : Frame) : Frame :=
  mkFrame (A fr) (V fr) (W fr) (start fr) z (j fr) (sigma fr)
    (total_vcts_filtered fr) (views fr).
Definition set_j (z : Z) (fr : Frame) : Frame :=
  mkFrame (A fr) (V fr) (W fr) (start fr) (width fr) z (sigma fr)
    (total_vcts_filtered fr) (views fr).
Definition set_sigma (x : Real) (fr : Frame) : Frame :=
  mkFrame (A fr) (V fr) (W fr) (start fr) (width fr) (j fr) x
    (total_vcts_filtered fr) (views fr).
Definition set_total (z : Z) (fr : Frame) : Frame :=
  mkFrame (A fr) (V fr) (W fr) (start fr) (width fr) (j fr) (sigma fr)
    z (views fr).
Definition add_view (line s w : Z) (fr : Frame) : Frame :=
  mkFrame (A fr) (V fr) (W fr) (start fr) (width fr) (j fr) (sigma fr)
    (total_vcts_filtered fr) (views fr ++ [(line, s, w)]).

(** Signed arithmetic on [int]. *)
Definition int_val (z : Z) : Res Z := if int_ok z then Val z else Undef.
Definition int_add (a b : Z) : Res Z := int_val (a + b).
Definition int_sub (a b : Z) : Res Z := int_val (a - b).

(** [degrees[k]]: the array has the elements of the list and no others. *)
Definition read (degrees : list Z) (k : Z) : Res Z :=
  if k <? 0 then Undef
  else match degrees !! Z.to_nat k with
       | Some d => Val d
       | None => Undef
       end.

(** The pair [View(V_view, V, 0, s, N, w); View(W_view, W, 0, s, N, w)]
    whose first call is at the source line [line]. *)
Definition take_views (line N s w : Z) (fr : Frame) : Res (view * view * Frame) :=
  match View (V fr) 0 s N w with
  | None => Undef
  | Some V_view =>
      let fr := add_view line s w fr in
      match View (W fr) 0 s N w with
      | None => Undef
      | Some W_view => Val (V_view, W_view, add_view (line + 1) s w fr)
      end
  end.

(** [while (j < deglen && degrees[j] == i) ++j;] The loop runs at most
    [deglen - j] times, which is the count given to [skip_degree]. *)
Fixpoint skip_degree (n : nat) (degrees : list Z) (deglen i j : Z) : Res Z :=
  match n with
  | O => Val j
  | S n' =>
      if j <? deglen then
        d ← read degrees j;
        if d =? i then j' ← int_add j 1; skip_degree n' degrees deglen i j'
        else Val j
      else Val j
  end.

Definition while_degree_is (degrees : list Z) (deglen i j : Z) : Res Z :=
  skip_degree (Z.to_nat (deglen - j)) degrees deglen i j.

(** Lines 171-194: the coefficients of degree [i], the two views of the
    active range, the multiply into the buffer that this degree writes,
    the cost metric and [sigma]. *)
Definition multiply (uplo : UpperOrLower) (N : Z) (e sigma_scale : Real)
    (i : Z) (fr : Frame) : Res Frame :=
  let sigma_new := rdiv r_one (rsub (rdiv r_two sigma_scale) (sigma fr)) in
  let alpha := fof (rdiv (rmul r_two sigma_new) e) in
  let beta := fof (rmul (ropp (sigma fr)) sigma_new) in
  '(V_view, W_view, fr) ← take_views 177 N (start fr) (width fr) fr;
  let fr :=
    if Z.rem i 2 =? 0
    then set_V (Hemm uplo alpha (A fr) (W fr) W_view beta (V fr) V_view) fr
    else set_W (Hemm uplo alpha (A fr) (V fr) V_view beta (W fr) W_view) fr in
  total ← int_add (total_vcts_filtered fr) (width fr);
  Val (set_sigma sigma_new (set_total total fr)).

(** Lines 197-212: the vectors whose degree is [i] leave the active range;
    when this degree wrote into V they are copied to W. *)
Definition deflate (N : Z) (degrees : option (list Z)) (deglen i : Z)
    (fr : Frame) : Res Frame :=
  match degrees with
  | None => Val fr
  | Some ds =>
      let j0 := j fr in
      j' ← while_degree_is ds deglen i (j fr);
      local_vcts_filtered ← int_sub j' j0;
      width' ← int_sub (width fr) local_vcts_filtered;
      let fr := set_width width' (set_j j' fr) in
      fr ← (if (Z.rem i 2 =? 0) && (0 <? local_vcts_filtered)
            then '(V_view, W_view, fr) ← take_views 206 N (start fr) local_vcts_filtered fr;
                 Val (set_W (CopyView (V fr) V_view (W fr) W_view) fr)
            else Val fr);
      start' ← int_add (start fr) local_vcts_filtered;
      Val (set_start start' fr)
  end.

Definition iteration (uplo : UpperOrLower) (N : Z) (e sigma_scale : Real)
    (degrees : option (list Z)) (deglen i : Z) (fr : Frame) : Res Frame :=
  fr ← multiply uplo N e sigma_scale i fr;
  deflate N degrees deglen i fr.

(** [for (int i = ...; i <= degmax; ++i)], entered with [n] iterations
    left to run. *)
Fixpoint for_loop (uplo : UpperOrLower) (N : Z) (e sigma_scale : Real)
    (degrees : option (list Z)) (deglen : Z) (n : nat) (i : Z) (fr : Frame)
    : Res Frame :=
  match n with
  | O => Val fr
  | S n' =>
      fr ← iteration uplo N e sigma_scale degrees deglen i fr;
      i' ← int_add i 1;
      for_loop uplo N e sigma_scale degrees deglen n' i' fr
  end.

(** Lines 80-82. *)
Definition degmax_of (deg : Z) (degrees : option (list Z)) (deglen : Z) : Res Z :=
  match degrees with
  | None => Val deg
  | Some ds =>
      k ← int_sub deglen 1;
      d ← read ds k;
      Val (if deg >=? d then deg else d)
  end.

(** The three tests of one scan; the lines are those of [__LINE__]. *)
Definition nan_scan (lineV lineW lineA : Z) (fr : Frame) : list Msg :=
  (if r_isnan (EntrywiseNorm1 (V fr)) then [ContainsNan BufV lineV] else [])
  ++ (if r_isnan (EntrywiseNorm1 (W fr)) then [ContainsNan BufW lineW] else [])
  ++ (if r_isnan (EntrywiseNorm1 (A fr)) then [ContainsNan BufA lineA] else []).

(** [#ifdef]: the macro is defined or not, whatever its value. *)
Definition ifdef (macro : option Z) : bool :=
  match macro with Some _ => true | None => false end.

(** Line 17: [#define SEARCH_NAN 1]. *)
Definition SEARCH_NAN : option Z := Some 1.

(** Lines 95-166: the two assertions, the views, the degree-1 multiply
    between the two scans, and the vectors of degree 1 leaving. *)
Definition first_step (macro : option Z) (uplo : UpperOrLower) (N : Z)
    (e sigma_scale : Real) (degrees : option (list Z)) (deglen : Z)
    (fr : Frame) : Res Frame :=
  let alpha := fof (rdiv sigma_scale e) in
  let beta := fof r_zero in
  sw ← int_add (start fr) (width fr);
  if negb (AssertValidSubmatrix (V fr) 0 0 N sw) then Throws (mem_of fr) else
  if negb (AssertValidSubmatrix (W fr) 0 0 N sw) then Throws (mem_of fr) else
  '(V_view, W_view, fr) ← take_views 98 N (start fr) (width fr) fr;
  let out := nan_scan 108 113 118 fr in
  if ifdef macro && negb (bool_decide (out = [])) then Exits (mem_of fr) out else
  let fr := set_W (Hemm uplo alpha (A fr) (V fr) V_view beta (W fr) W_view) fr in
  let out := nan_scan 137 142 147 fr in
  if ifdef macro && negb (bool_decide (out = []))
  then Exits (mem_of fr) (out ++ [AlphaStartWidth alpha (start fr) (width fr)]) else
  total ← int_add (total_vcts_filtered fr) (width fr);
  let fr := set_total total fr in
  match degrees with
  | None => Val fr
  | Some ds =>
      j' ← while_degree_is ds deglen 1 (j fr);
      width' ← int_sub (width fr) j';
      start' ← int_add (start fr) j';
      Val (set_start start' (set_width width' (set_j j' fr)))
  end.

(** Lines 217-222. *)
Definition final_copy (N degmax : Z) (fr : Frame) : Res Frame :=
  if Z.rem degmax 2 =? 0
  then '(V_view, W_view, fr) ← take_views 219 N (start fr) (width fr) fr;
       Val (set_W (CopyView (V fr) V_view (W fr) W_view) fr)
  else Val fr.

(** The whole routine, compiled with the macro as given; the value is the
    frame on return, of which the caller sees the three matrices and
    [total_vcts_filtered]. *)
Definition filter_run (macro : option Z) (uplo : UpperOrLower) (m : Mem)
    (start width deg : Z) (degrees : option (list Z)) (deglen : Z)
    (lambda lower upper : Real) : Res Frame :=
  let c := rdiv (radd upper lower) r_two in
  let e := rdiv (rsub upper lower) r_two in
  let sigma_scale := rdiv e (rsub lambda c) in
  let fr := mkFrame (mA m) (mV m) (mW m) start width 0 sigma_scale 0 [] in
  let N := Z.of_nat (Height (A fr)) in
  degmax ← degmax_of deg degrees deglen;
  if degmax =? 0 then Val fr else
  let T := GetDiagonal (A fr) in
  let fr := set_A (ShiftDiagonal (A fr) (ropp c)) fr in
  fr ← first_step macro uplo N e sigma_scale degrees deglen fr;
  fr ← for_loop uplo N e sigma_scale degrees deglen (Z.to_nat (degmax - 1)) 2 fr;
  fr ← final_copy N degmax fr;
  Val (set_A (SetDiagonal (A fr) T) fr).

(** [filter] as the header compiles it: what the caller gets back. *)
Definition filter (uplo : UpperOrLower) (m : Mem)
    (start width deg : Z) (degrees : option (list Z)) (deglen : Z)
    (lambda lower upper : Real) : Res (Mem * Z) :=
  fr ← filter_run SEARCH_NAN uplo m start width deg degrees deglen lambda lower upper;
  Val (mem_of fr, total_vcts_filtered fr).

(** ** One column at a time

    [sigma] after [n] iterations of the loop, and the coefficients that
    the routine uses for degree [d]. *)

Definition next_sigma (sigma_scale s : Real) : Real :=
  rdiv r_one (rsub (rdiv r_two sigma_scale) s).

Fixpoint sigma_after (sigma_scale : Real) (n : nat) : Real :=
  match n with
  | O => sigma_scale
  | S n' => next_sigma sigma_scale (sigma_after sigma_scale n')
  end.

Definition coefficients (e sigma_scale : Real) (d : nat) : F * F :=
  match d with
  | S (S n) =>
      let s := sigma_after sigma_scale n in
      let sigma_new := next_sigma sigma_scale s in
      (fof (rdiv (rmul r_two sigma_new) e), fof (rmul (ropp s) sigma_new))
  | _ => (fof (rdiv sigma_scale e), fof r_zero)
  end.

(** The columns of V and of W at one position of the active range after
    the multiplies of degree 1 to [d]: even degrees write V, odd ones W. *)
Fixpoint buffers (uplo : UpperOrLower) (A : DistMatrix F) (e sigma_scale : Real)
    (d : nat) (v w : list F) : list F * list F :=
  match d with
  | O => (v, w)
  | S d' =>
      let '(bv, bw) := buffers uplo A e sigma_scale d' v w in
      let '(alpha, beta) := coefficients e sigma_scale d in
      if Nat.even d
      then (hemm_column uplo alpha A 0 bw beta 0 (Height A) bv, bw)
      else (bv, hemm_column uplo alpha A 0 bv beta 0 (Height A) bw)
  end.

(** The two columns once the vector has left with degree [d]: the column
    of W has received the one of V when [d] is even. *)
Definition deflated (uplo : UpperOrLower) (A : DistMatrix F) (e sigma_scale : Real)
    (d : nat) (v w : list F) : list F * list F :=
  let '(bv, bw) := buffers uplo A e sigma_scale d v w in
  if Nat.even d then (bv, copy_column 0 bv 0 (Height A) bw) else (bv, bw).

(** The three-term Chebyshev recurrence on a single vector, the reference
    that the batched, deflating routine is compared with.  It is written
    from the method and not from the loop: the pair (x_{d-1}, x_d) with
    x_0 = v and x_d = alpha_d A x_{d-1} + beta_d x_{d-2}, the column [w]
    standing for x_{-1} (beta_1 is zero). *)
Fixpoint recurrence (uplo : UpperOrLower) (A : DistMatrix F) (e sigma_scale : Real)
    (d : nat) (v w : list F) : list F * list F :=
  match d with
  | O => (w, v)
  | S d' =>
      let '(prev, cur) := recurrence uplo A e sigma_scale d' v w in
      let '(alpha, beta) := coefficients e sigma_scale d in
      (cur, hemm_column uplo alpha A 0 cur beta 0 (Height A) prev)
  end.

(** The vector [v] filtered with degree [d] for the operator [A] and the
    spectral parameters of a call: the recurrence for A - cI. *)
Definition filtered (uplo : UpperOrLower) (A : DistMatrix F)
    (lambda lower upper : Real) (d : nat) (v w : list F) : list F :=
  let c := rdiv (radd upper lower) r_two in
  let e := rdiv (rsub upper lower) r_two in
  let sigma_scale := rdiv e (rsub lambda c) in
  snd (recurrence uplo (ShiftDiagonal A (ropp c)) e sigma_scale d v w).

(** ** Valid calls *)

Fixpoint ascending (ds : list Z) : bool :=
  match ds with
  | x :: (y :: _) as tl => (x <=? y) && ascending tl
  | _ => true
  end.

(** The maximum degree, as lines 80-82 compute it from the last entry. *)
Definition top_degree (deg : Z) (degrees : option (list Z)) : Z :=
  match degrees with
  | None => deg
  | Some ds => let d := default 0 (last ds) in if deg >=? d then deg else d
  end.

(** The degree at which the routine stops updating the vector at
    position [k] of the active range. *)
Definition degree_at (deg : Z) (degrees : option (list Z)) (k : nat) : nat :=
  match degrees with
  | None => Z.to_nat deg
  | Some ds => Z.to_nat (default (top_degree deg degrees) (ds !! k))
  end.

(** The schedule has [deglen] entries, one for each of the first vectors
    of the active range, positive and sorted ascending. *)
Definition schedule_ok (degrees : option (list Z)) (deglen width : Z) : Prop :=
  match degrees with
  | None => True
  | Some ds =>
      Z.of_nat (length ds) = deglen ∧ 1 ≤ deglen ∧ deglen ≤ width
      ∧ forallb (Z.leb 1) ds = true ∧ ascending ds = true
  end.

(** The preconditions of a call: the active range lies in V and W, which
    have the rows of A; the degrees are not negative; the counters of the
    routine stay in the range of [int]. *)
Definition valid_call (m : Mem) (start width deg : Z)
    (degrees : option (list Z)) (deglen : Z) : Prop :=
  0 ≤ start ∧ 0 ≤ width
  ∧ start + width ≤ Z.of_nat (Width (mV m))
  ∧ start + width ≤ Z.of_nat (Width (mW m))
  ∧ start + width ≤ INT_MAX
  ∧ (Height (mA m) ≤ Height (mV m))%nat
  ∧ (Height (mA m) ≤ Height (mW m))%nat
  ∧ 0 ≤ deg
  ∧ schedule_ok degrees deglen width
  ∧ top_degree deg degrees < INT_MAX
  ∧ width * top_degree deg degrees ≤ INT_MAX.

(** The job was ended by [exit(1)]. *)
Definition is_exit {X} (r : Res X) : bool :=
  match r with Exits _ _ => true | _ => false end.

(** ** The state of a run

    What stays fixed while the loop runs: the shifted operator, the two
    blocks and the active range on entry, the scalars, the schedule. *)

Record Call := mkCall {
  c_uplo : UpperOrLower;
  c_A : DistMatrix F;
  c_V : DistMatrix F;
  c_W : DistMatrix F;
  c_start : Z;
  c_width : Z;
  c_e : Real;
  c_sigma_scale : Real;
  c_degrees : option (list Z);
  c_deglen : Z;
  c_degmax : Z
}.

Definition schedule (cl : Call) : list Z := default [] (c_degrees cl).

Definition schedule_len (cl : Call) : Z :=
  match c_degrees cl with None => 0 | Some _ => c_deglen cl end.

Definition c_N (cl : Call) : Z := Z.of_nat (Height (c_A cl)).

(** The block of [N] rows and the columns [s, s+w), as [View] builds it. *)
Definition block (N s w : Z) : view :=
  mkView 0 (Z.to_nat s) (Z.to_nat N) (Z.to_nat w).

(** The columns of V and W at position [c] once degree [n] is done and
    the first [jj] vectors of the schedule have left: untouched outside
    the range of the call, as they were left for a vector that is gone,
    as the multiplies have them for an active one. *)
Definition expected (cl : Call) (n : nat) (jj : Z) (c : nat) (v w : list F)
    : list F * list F :=
  let k := Z.of_nat c - c_start cl in
  if (k <? 0) || (c_width cl <=? k) then (v, w)
  else if k <? jj
       then deflated (c_uplo cl) (c_A cl) (c_e cl) (c_sigma_scale cl)
              (Z.to_nat (default 0 (schedule cl !! Z.to_nat k))) v w
       else buffers (c_uplo cl) (c_A cl) (c_e cl) (c_sigma_scale cl) n v w.

(** A recorded view lies in the range of the call; the views of the
    active range (all but those of lines 206 and 207) end where it ends. *)
Definition view_ok (cl : Call) (x : Z * Z * Z) : Prop :=
  let '(line, s, w) := x in
  c_start cl ≤ s ∧ 0 ≤ w ∧ s + w ≤ c_start cl + c_width cl
  ∧ (line ≠ 206 → line ≠ 207 → s + w = c_start cl + c_width cl).

Record good_call (cl : Call) : Prop := {
  gc_start : 0 ≤ c_start cl;
  gc_width : 0 ≤ c_width cl;
  gc_WV : c_start cl + c_width cl ≤ Z.of_nat (Width (c_V cl));
  gc_WW : c_start cl + c_width cl ≤ Z.of_nat (Width (c_W cl));
  gc_int : c_start cl + c_width cl ≤ INT_MAX;
  gc_HV : (Height (c_A cl) ≤ Height (c_V cl))%nat;
  gc_HW : (Height (c_A cl) ≤ Height (c_W cl))%nat;
  gc_len : Z.of_nat (length (schedule cl)) = schedule_len cl;
  gc_slen : 0 ≤ schedule_len cl ≤ c_width cl;
  gc_pos : ∀ k dk, schedule cl !! k = Some dk → 1 ≤ dk;
  gc_asc : ∀ k1 k2 d1 d2, (k1 ≤ k2)%nat →
             schedule cl !! k1 = Some d1 → schedule cl !! k2 = Some d2 → d1 ≤ d2;
  gc_top : ∀ k dk, schedule cl !! k = Some dk → dk ≤ c_degmax cl;
  gc_degmax : 1 ≤ c_degmax cl < INT_MAX;
  gc_total : c_width cl * c_degmax cl ≤ INT_MAX
}.

(** The frame once degree [n] is done. *)
Record Inv (cl : Call) (n : nat) (fr : Frame) : Prop := {
  inv_A : A fr = c_A cl;
  inv_HV : Height (V fr) = Height (c_V cl);
  inv_HW : Height (W fr) = Height (c_W cl);
  inv_WV : Width (V fr) = Width (c_V cl);
  inv_WW : Width (W fr) = Width (c_W cl);
  inv_j : 0 ≤ j fr ≤ schedule_len cl;
  inv_start : start fr = c_start cl + j fr;
  inv_width : width fr = c_width cl - j fr;
  inv_done : ∀ k dk, 0 ≤ k < j fr → schedule cl !! Z.to_nat k = Some dk → dk ≤ Z.of_nat n;
  inv_todo : ∀ k dk, j fr ≤ k → schedule cl !! Z.to_nat k = Some dk → Z.of_nat n < dk;
  inv_sigma : sigma fr = sigma_after (c_sigma_scale cl) (n - 1);
  inv_total : 0 ≤ total_vcts_filtered fr ≤ c_width cl * Z.of_nat n;
  inv_total_null :
    c_degrees cl = None → total_vcts_filtered fr = c_width cl * Z.of_nat n;
  inv_views : Forall (view_ok cl) (views fr);
  inv_outV : ∀ c : nat, ¬ (c_start cl ≤ Z.of_nat c < c_start cl + c_width cl) →
    Cols (V fr) !! c = Cols (c_V cl) !! c;
  inv_outW : ∀ c : nat, ¬ (c_start cl ≤ Z.of_nat c < c_start cl + c_width cl) →
    Cols (W fr) !! c = Cols (c_W cl) !! c;
  inv_cols : ∀ c v w, Cols (c_V cl) !! c = Some v → Cols (c_W cl) !! c = Some w →
    Cols (V fr) !! c = Some (fst (expected cl n (j fr) c v w))
    ∧ Cols (W fr) !! c = Some (snd (expected cl n (j fr) c v w))
}.

(** The columns of V and W at position [c] on return: inside the range
    of the call they are those of a vector that left with its degree of
    the schedule, or with the maximum degree when it has none. *)
Definition result_at (cl : Call) (c : nat) (v w : list F) : list F * list F :=
  let k := Z.of_nat c - c_start cl in
  if (k <? 0) || (c_width cl <=? k) then (v, w)
  else deflated (c_uplo cl) (c_A cl) (c_e cl) (c_sigma_scale cl)
         (Z.to_nat (default (c_degmax cl) (schedule cl !! Z.to_nat k))) v w.

(** The frame after the loop and the copy that follows it. *)
Record Done (cl : Call) (fr : Frame) : Prop := {
  done_A : A fr = c_A cl;
  done_HV : Height (V fr) = Height (c_V cl);
  done_HW : Height (W fr) = Height (c_W cl);
  done_WV : Width (V fr) = Width (c_V cl);
  done_WW : Width (W fr) = Width (c_W cl);
  done_range : start fr + width fr = c_start cl + c_width cl;
  done_total : 0 ≤ total_vcts_filtered fr ≤ c_width cl * c_degmax cl;
  done_total_null :
    c_degrees cl = None → total_vcts_filtered fr = c_width cl * c_degmax cl;
  done_views : Forall (view_ok cl) (views fr);
  done_outV : ∀ c : nat, ¬ (c_start cl ≤ Z.of_nat c < c_start cl + c_width cl) →
    Cols (V fr) !! c = Cols (c_V cl) !! c;
  done_outW : ∀ c : nat, ¬ (c_start cl ≤ Z.of_nat c < c_start cl + c_width cl) →
    Cols (W fr) !! c = Cols (c_W cl) !! c;
  done_cols : ∀ c v w, Cols (c_V cl) !! c = Some v → Cols (c_W cl) !! c = Some w →
    Cols (V fr) !! c = Some (fst (result_at cl c v w))
    ∧ Cols (W fr) !! c = Some (snd (result_at cl c v w))
}.

(** What a call fixes once the diagonal is shifted. *)
Definition call_of (uplo : UpperOrLower) (m : Mem) (start width deg : Z)
    (degrees : option (list Z)) (deglen : Z) (lambda lower upper : Real) : Call :=
  let c := rdiv (radd upper lower) r_two in
  let e := rdiv (rsub upper lower) r_two in
  mkCall uplo (ShiftDiagonal (mA m) (ropp c)) (mV m) (mW m) start width
    e (rdiv e (rsub lambda c)) degrees deglen (top_degree deg degrees).

(** The frame in which the first step starts. *)
Definition entry_frame (cl : Call) : Frame :=
  mkFrame (c_A cl) (c_V cl) (c_W cl) (c_start cl) (c_width cl) 0 (c_sigma_scale cl) 0 [].

(** The frame after a multiply of degree [i] with the coefficients
    [alpha] and [beta], which leaves [sigma'] in [sigma]; the views are
    taken at the lines [line] and [line + 1]. *)
Definition multiplied_with (uplo : UpperOrLower) (N : Z) (alpha beta : F)
    (sigma' : Real) (line i : Z) (fr : Frame) : Frame :=
  let bl := block N (start fr) (width fr) in
  mkFrame (A fr)
    (if Z.rem i 2 =? 0 then Hemm uplo alpha (A fr) (W fr) bl beta (V fr) bl else V fr)
    (if Z.rem i 2 =? 0 then W fr else Hemm uplo alpha (A fr) (V fr) bl beta (W fr) bl)
    (start fr) (width fr) (j fr) sigma'
    (total_vcts_filtered fr + width fr)
    (views fr ++ [(line, start fr, width fr); (line + 1, start fr, width fr)]).

(** The frame after the vectors up to [j'] of the schedule have left at
    degree [i]. *)
Definition left_at (N i : Z) (j' : Z) (fr : Frame) : Frame :=
  let lv := j' - j fr in
  let copied := (Z.rem i 2 =? 0) && (0 <? lv) in
  let bl := block N (start fr) lv in
  mkFrame (A fr) (V fr)
    (if copied then CopyView (V fr) bl (W fr) bl else W fr)
    (start fr + lv) (width fr - lv) j' (sigma fr) (total_vcts_filtered fr)
    (if copied then views fr ++ [(206, start fr, lv); (207, start fr, lv)] else views fr).

(** The frame at the first scan, and after the first multiply. *)
Definition scanned_frame (cl : Call) : Frame :=
  add_view (98 + 1) (c_start cl) (c_width cl)
    (add_view 98 (c_start cl) (c_width cl) (entry_frame cl)).

Definition first_alpha (cl : Call) : F := fof (rdiv (c_sigma_scale cl) (c_e cl)).

Definition first_frame (cl : Call) : Frame :=
  let fr := scanned_frame cl in
  let bl := block (c_N cl) (c_start cl) (c_width cl) in
  set_W (Hemm (c_uplo cl) (first_alpha cl) (A fr) (V fr) bl (fof r_zero) (W fr) bl) fr.

(** The outcome of the first step when it ends in [fr1] unless a scan
    ends the job. *)
Definition first_step_outcome (macro : option Z) (cl : Call) (fr1 : Frame) : Res Frame :=
  if ifdef macro && negb (bool_decide (nan_scan 108 113 118 (scanned_frame cl) = []))
  then Exits (mem_of (scanned_frame cl)) (nan_scan 108 113 118 (scanned_frame cl))
  else if ifdef macro && negb (bool_decide (nan_scan 137 142 147 (first_frame cl) = []))
  then Exits (mem_of (first_frame cl))
         (nan_scan 137 142 147 (first_frame cl)
          ++ [AlphaStartWidth (first_alpha cl) (c_start cl) (c_width cl)])
  else Val fr1.

(** The columns of V and W have the rows of the operator. *)
Definition block_rows (m : Mem) : Prop :=
  Forall (λ col, length col = Height (mA m)) (Cols (mV m))
  ∧ Forall (λ col, length col = Height (mA m)) (Cols (mW m)).

(** The column of W at position [k] of the range after a call that
    returns, as the routine builds it in its two buffers. *)
Definition column_result (uplo : UpperOrLower) (M : DistMatrix F)
    (lambda lower upper : Real) (d : nat) (v w : list F) : list F :=
  let c := rdiv (radd upper lower) r_two in
  let e := rdiv (rsub upper lower) r_two in
  let sigma_scale := rdiv e (rsub lambda c) in
  (deflated uplo (ShiftDiagonal M (ropp c)) e sigma_scale d v w).2.

(** ** Further notions for the properties of a call *)

(** Every column of the matrix has its height. *)
Definition well_formed (M : DistMatrix F) : Prop :=
  Forall (λ col, length col = Height M) (Cols M).

(** From the specification: a vector at position [k] is to be filtered
    with degree min(degrees[k], deg), and with [deg] where there is no
    schedule or the schedule has no entry for it. *)
Definition spec_degree (deg : Z) (degrees : option (list Z)) (k : nat) : nat :=
  Z.to_nat (match degrees ≫= (.!! k) with
            | Some d => Z.min d deg
            | None => deg
            end).

(** No entry of the schedule is above [deg]. *)
Definition schedule_within (deg : Z) (degrees : option (list Z)) : Prop :=
  Forall (λ d, d ≤ deg) (default [] degrees).

(** The cost metric in closed form: each vector of the schedule counts
    with its degree, each of the others with the maximum degree. *)
Definition scheduled_cost (width deg : Z) (degrees : option (list Z)) : Z :=
  let ds := default [] degrees in
  foldr Z.add 0 ds + (width - Z.of_nat (length ds)) * top_degree deg degrees.

(** The same cost vector by vector: the degree at which the routine
    stops updating each vector of the range, added up. *)
Definition degrees_applied (width deg : Z) (degrees : option (list Z)) : Z :=
  foldr (λ k acc, Z.of_nat (degree_at deg degrees k) + acc) 0 (seq 0 (Z.to_nat width)).

(** The column of V at a position of the range after a call that
    returns: V is written by the even degrees only, so it holds the term
    of the recurrence of the last even degree, x_d or x_(d-1). *)
Definition scratch_column (uplo : UpperOrLower) (M : DistMatrix F)
    (lambda lower upper : Real) (d : nat) (v w : list F) : list F :=
  let c := rdiv (radd upper lower) r_two in
  let e := rdiv (rsub upper lower) r_two in
  let sigma_scale := rdiv e (rsub lambda c) in
  let r := recurrence uplo (ShiftDiagonal M (ropp c)) e sigma_scale d v w in
  if Nat.even d then r.2 else r.1.

(** The lengths of the columns of a matrix. *)
Definition column_lengths (M : DistMatrix F) : list nat := length <$> Cols M.

(** The call ended with a [LogicError]. *)
Definition is_throw {X} (r : Res X) : bool :=
  match r with Throws _ => true | _ => false end.

End Filter.

(** ** IEEE binary64

    [Real = double] and [F = double]: the real symmetric case. *)

#[export] Instance DoubleScalars : Scalars := {|
  Real := float;
  F := float;
  r_zero := 0%float;
  r_one := 1%float;
  r_two := 2%float;
  radd := PrimFloat.add;
  rsub := PrimFloat.sub;
  rmul := PrimFloat.mul;
  rdiv := PrimFloat.div;
  ropp := PrimFloat.opp;
  r_isnan := PrimFloat.is_nan;
  fof := λ x, x;
  fadd := PrimFloat.add;
  fmul := PrimFloat.mul;
  fconj := λ x, x;
  fabs := PrimFloat.abs
|}.

Module Example.

(** A symmetric 2x2 operator, three vectors, and an output block. *)
Definition A2 : DistMatrix float := mkDist 2 [[2; 1]; [1; 3]]%float.
Definition V3 : DistMatrix float := mkDist 2 [[1; 0]; [0; 1]; [1; 1]]%float.
Definition W3 : DistMatrix float := mkDist 2 [[0; 0]; [0; 0]; [0; 0]]%float.
Definition mem3 : Mem := mkMem A2 V3 W3.

(** The same with a NaN in the first vector. *)
Definition Vnan : DistMatrix float := mkDist 2 [[nan; 0]; [0; 1]; [1; 1]]%float.
Definition mem_nan : Mem := mkMem A2 Vnan W3.

End Example.

(** Two vectors with three rows for the 2 x 2 operator: the last row is
    outside every view. *)
Module Tall.

Definition V23 : DistMatrix float := mkDist 3 [[1; 0; 7]; [0; 1; 8]]%float.
Definition W23 : DistMatrix float := mkDist 3 [[0; 0; 9]; [0; 0; 9]]%float.
Definition mem_tall : Mem := mkMem Example.A2 V23 W23.

End Tall.

(** * Properties *)

Section Properties.
Context {Sc : Scalars}.

Implicit Types (m : Mem) (fr : Frame) (ds : list Z) (cl : Call).

(** ** Machine integers and reads *)

Lemma int_val_ok z : INT_MIN ≤ z ≤ INT_MAX → int_val z = Val z.
Proof.
  intros Hz. unfold int_val, int_ok.
  destruct (Z.leb_spec INT_MIN z), (Z.leb_spec z INT_MAX); simpl; try lia; done.
Qed.

Lemma int_val_inv z z' : int_val z = Val z' → z' = z ∧ INT_MIN ≤ z ≤ INT_MAX.
Proof.
  unfold int_val, int_ok.
  destruct (Z.leb_spec INT_MIN z), (Z.leb_spec z INT_MAX); simpl; try done.
  intros [= <-]. lia.
Qed.

Lemma read_negative ds k : k < 0 → read ds k = Undef.
Proof. intros Hk. unfold read. by destruct (Z.ltb_spec k 0); [|lia]. Qed.

Lemma read_lookup ds k d :
  0 ≤ k → ds !! Z.to_nat k = Some d → read ds k = Val d.
Proof.
  intros Hk Hd. unfold read. destruct (Z.ltb_spec k 0); [lia|]. by rewrite Hd.
Qed.

Lemma mem_of_initial m s w jj sg t vs :
  mem_of (mkFrame (mA m) (mV m) (mW m) s w jj sg t vs) = m.
Proof. by destruct m. Qed.

(** ** The early return *)

(** C6: with [deg = 0] and no schedule the call returns 0 at once; the
    frame on return is the frame on entry, so A, V and W are the ones of
    the caller and no view was taken. *)
Theorem filter_degree_zero_noop uplo m start width deglen lambda lower upper :
  filter uplo m start width 0 None deglen lambda lower upper = Val (m, 0)
  ∧ ∃ sg, filter_run SEARCH_NAN uplo m start width 0 None deglen lambda lower upper
          = Val (mkFrame (mA m) (mV m) (mW m) start width 0 sg 0 []).
Proof.
  split.
  - unfold filter, filter_run. simpl. by rewrite mem_of_initial.
  - eexists. reflexivity.
Qed.

(** ** The read of the last entry of the schedule *)

(** C10: with a schedule, [degrees[deglen-1]] is read before anything
    else, so a call with [deglen < 1] (in particular [deglen = 0]) has no
    defined result, whatever the other arguments are. *)
Theorem schedule_needs_deglen uplo m start width deg ds deglen lambda lower upper :
  deglen < 1 →
  filter uplo m start width deg (Some ds) deglen lambda lower upper = Undef.
Proof.
  intros Hlen. unfold filter, filter_run, degmax_of, int_sub. simpl.
  destruct (int_val (deglen - 1)) as [k| | |] eqn:Hk; simpl; try done.
  - apply int_val_inv in Hk as [-> _]. rewrite read_negative by lia. done.
  - unfold int_val in Hk. by destruct (int_ok _).
  - unfold int_val in Hk. by destruct (int_ok _).
Qed.

(** ** What the shift does to the operator *)

Lemma Get_ShiftDiagonal_diag (M : DistMatrix F) a (i : nat) col x :
  (i < Height M)%nat → Cols M !! i = Some col → col !! i = Some x →
  Get (ShiftDiagonal M a) i i = fadd x (fof a).
Proof.
  intros Hi Hcol Hx. unfold Get, ShiftDiagonal. cbn [Cols].
  rewrite list_lookup_imap, Hcol. cbn [fmap option_fmap option_map mbind option_bind].
  destruct (Nat.ltb_spec i (Height M)); [|lia].
  by rewrite list_lookup_alter_eq, Hx.
Qed.

Lemma Get_ShiftDiagonal_off (M : DistMatrix F) a (r k : nat) :
  r ≠ k → Get (ShiftDiagonal M a) r k = Get M r k.
Proof.
  intros Hne. unfold Get, ShiftDiagonal. cbn [Cols].
  rewrite list_lookup_imap.
  destruct (Cols M !! k) as [col|]; [|done].
  cbn [fmap option_fmap option_map mbind option_bind].
  destruct (k <? Height M)%nat; [|done].
  by rewrite list_lookup_alter_ne.
Qed.

Lemma ShiftDiagonal_changes (M : DistMatrix F) a :
  (∃ (i : nat) col x, (i < Height M)%nat ∧ Cols M !! i = Some col ∧ col !! i = Some x
                      ∧ fadd x (fof a) ≠ x) →
  ShiftDiagonal M a ≠ M.
Proof.
  intros (i & col & x & Hi & Hcol & Hx & Hne) Heq. apply Hne.
  rewrite <- (Get_ShiftDiagonal_diag M a i col x Hi Hcol Hx), Heq.
  unfold Get. by rewrite Hcol; simpl; rewrite Hx.
Qed.

(** ** The assertions come after the shift *)

(** C8: when the maximum degree is not zero and V or W is too small for
    the block of [N] rows and [start+width] columns, the call leaves
    through the LogicError of the assertion with V and W as on entry and
    the operator as the shift left it: each entry of its diagonal has
    had [-c] added, the other entries are those of A.  The diagonal is
    not written back: where adding [-c] changes an entry of the
    diagonal, the operator that the caller finds is not the one given. *)
Theorem assertion_failure_leaves_shift uplo m start0 width0 deg degrees deglen
    lambda lower upper dm :
  degmax_of deg degrees deglen = Val dm →
  dm ≠ 0 →
  int_ok (start0 + width0) = true →
  AssertValidSubmatrix (mV m) 0 0 (Z.of_nat (Height (mA m))) (start0 + width0)
    && AssertValidSubmatrix (mW m) 0 0 (Z.of_nat (Height (mA m))) (start0 + width0) = false →
  let c := rdiv (radd upper lower) r_two in
  ∃ mm,
    filter uplo m start0 width0 deg degrees deglen lambda lower upper = Throws mm
    ∧ mm = mkMem (ShiftDiagonal (mA m) (ropp c)) (mV m) (mW m)
    ∧ (∀ (i : nat) col x,
         (i < Height (mA m))%nat → Cols (mA m) !! i = Some col → col !! i = Some x →
         Get (mA mm) i i = fadd x (fof (ropp c)))
    ∧ (∀ r k : nat, r ≠ k → Get (mA mm) r k = Get (mA m) r k)
    ∧ ((∃ (i : nat) col x,
          (i < Height (mA m))%nat ∧ Cols (mA m) !! i = Some col ∧ col !! i = Some x
          ∧ fadd x (fof (ropp c)) ≠ x) →
       mA mm ≠ mA m).
Proof.
  intros Hdm Hnz Hsw Hassert c.
  eexists. split; [|split; [reflexivity|]].
  - unfold filter, filter_run. rewrite Hdm. simpl.
    destruct (Z.eqb_spec dm 0); [done|].
    unfold first_step, int_add, int_val. simpl. rewrite Hsw. simpl.
    destruct (AssertValidSubmatrix (mV m) _ _ _ _); simpl in *.
    + by rewrite Hassert.
    + done.
  - cbn [mA]. split_and!.
    + intros i col x. apply Get_ShiftDiagonal_diag.
    + intros r k. apply Get_ShiftDiagonal_off.
    + apply ShiftDiagonal_changes.
Qed.

(** ** The operations of Elemental *)

Lemma Height_ShiftDiagonal (M : DistMatrix F) a : Height (ShiftDiagonal M a) = Height M.
Proof. done. Qed.

Lemma Height_Hemm uplo alpha M B bv beta C cv :
  Height (Hemm uplo alpha M B bv beta C cv) = Height C.
Proof. done. Qed.

Lemma Width_Hemm uplo alpha M B bv beta C cv :
  Width (Hemm uplo alpha M B bv beta C cv) = Width C.
Proof. unfold Width, Hemm. simpl. apply length_imap. Qed.

Lemma Height_CopyView (S : DistMatrix F) sv D dv : Height (CopyView S sv D dv) = Height D.
Proof. done. Qed.

Lemma Width_CopyView (S : DistMatrix F) sv D dv : Width (CopyView S sv D dv) = Width D.
Proof. unfold Width, CopyView. simpl. apply length_imap. Qed.

Lemma length_hemm_column uplo alpha M bi b beta ci h c :
  length (hemm_column uplo alpha M bi b beta ci h c) = length c.
Proof. apply length_imap. Qed.

Lemma View_block (M : DistMatrix F) N s w :
  0 ≤ s → 0 ≤ w → 0 ≤ N ≤ Z.of_nat (Height M) → s + w ≤ Z.of_nat (Width M) →
  View M 0 s N w = Some (block N s w).
Proof.
  intros Hs Hw HN Hsw. unfold View, AssertValidSubmatrix.
  destruct (Z.ltb_spec 0 0), (Z.ltb_spec s 0), (Z.ltb_spec N 0), (Z.ltb_spec w 0),
    (Z.ltb_spec (Z.of_nat (Height M)) (0 + N)),
    (Z.ltb_spec (Z.of_nat (Width M)) (s + w)); simpl; try lia; done.
Qed.

Lemma in_cols_block N s w (c : nat) :
  0 ≤ s → 0 ≤ w →
  in_cols (block N s w) c = (s <=? Z.of_nat c) && (Z.of_nat c <? s + w).
Proof.
  intros Hs Hw. unfold in_cols, block. simpl.
  destruct (Nat.leb_spec (Z.to_nat s) c), (Z.leb_spec s (Z.of_nat c)); try lia; simpl;
    destruct (Nat.ltb_spec c (Z.to_nat s + Z.to_nat w)),
      (Z.ltb_spec (Z.of_nat c) (s + w)); try lia; done.
Qed.

(** A column of the target of a multiply on two blocks of the same place. *)
Lemma Hemm_lookup uplo alpha M B beta C N s w (c : nat) b col :
  0 ≤ s → 0 ≤ w →
  Cols B !! c = Some b → Cols C !! c = Some col →
  Cols (Hemm uplo alpha M B (block N s w) beta C (block N s w)) !! c
  = Some (if (s <=? Z.of_nat c) && (Z.of_nat c <? s + w)
          then hemm_column uplo alpha M 0 b beta 0 (Z.to_nat N) col
          else col).
Proof.
  intros Hs Hw Hb Hcol. unfold Hemm. simpl.
  rewrite list_lookup_imap, Hcol. simpl. rewrite in_cols_block by done.
  destruct (Z.leb_spec s (Z.of_nat c)); simpl; [|done].
  replace (c - Z.to_nat s + Z.to_nat s)%nat with c by lia. by rewrite Hb.
Qed.

Lemma CopyView_lookup (S D : DistMatrix F) N s w (c : nat) src col :
  0 ≤ s → 0 ≤ w →
  Cols S !! c = Some src → Cols D !! c = Some col →
  Cols (CopyView S (block N s w) D (block N s w)) !! c
  = Some (if (s <=? Z.of_nat c) && (Z.of_nat c <? s + w)
          then copy_column 0 src 0 (Z.to_nat N) col
          else col).
Proof.
  intros Hs Hw Hsrc Hcol. unfold CopyView. simpl.
  rewrite list_lookup_imap, Hcol. simpl. rewrite in_cols_block by done.
  destruct (Z.leb_spec s (Z.of_nat c)); simpl; [|done].
  replace (c - Z.to_nat s + Z.to_nat s)%nat with c by lia. by rewrite Hsrc.
Qed.

(** Copying a column onto one of the same length replaces it. *)
Lemma copy_column_full (src dst : list F) h :
  length src = h → length dst = h → copy_column 0 src 0 h dst = src.
Proof.
  intros Hs Hd. unfold copy_column. apply list_eq. intros r.
  rewrite list_lookup_imap. unfold in_rows. simpl.
  destruct (dst !! r) as [x|] eqn:Hx; simpl.
  - apply lookup_lt_Some in Hx as Hr.
    destruct (Nat.ltb_spec r h); [|lia].
    replace (r - 0 + 0)%nat with r by lia.
    destruct (lookup_lt_is_Some_2 src r) as [y Hy]; [lia|]. by rewrite Hy.
  - apply lookup_ge_None in Hx. symmetry. apply lookup_ge_None. lia.
Qed.

(** ** Restoring the diagonal *)

Lemma GetDiagonal_lookup (M : DistMatrix F) (c : nat) col :
  Cols M !! c = Some col → (c < Height M)%nat →
  GetDiagonal M !! c = Some (default f_zero (col !! c)).
Proof.
  intros Hcol Hc. unfold GetDiagonal, DiagonalLength, Width.
  apply lookup_lt_Some in Hcol as Hlt.
  rewrite list_lookup_fmap, lookup_seq_lt by lia. simpl.
  unfold Get. by rewrite Hcol.
Qed.

(** Writing back the diagonal that was saved before the shift gives the
    matrix of before the shift, entry for entry: no arithmetic is undone. *)
Lemma SetDiagonal_ShiftDiagonal (M : DistMatrix F) a :
  SetDiagonal (ShiftDiagonal M a) (GetDiagonal M) = M.
Proof.
  destruct M as [h cols]. unfold SetDiagonal, ShiftDiagonal. simpl. f_equal.
  apply list_eq. intros c. rewrite !list_lookup_imap.
  destruct (cols !! c) as [col|] eqn:Hcol; simpl; [|done]. f_equal.
  destruct (Nat.ltb_spec c h) as [Hlt|Hge].
  - rewrite (GetDiagonal_lookup (mkDist h cols) c col) by done.
    apply list_eq. intros r. destruct (decide (r = c)) as [->|Hne].
    + destruct (col !! c) as [x|] eqn:Hx; simpl.
      * rewrite list_lookup_insert_eq; [done|]. rewrite length_alter.
        by apply lookup_lt_Some in Hx.
      * rewrite list_insert_ge, list_lookup_alter_eq, Hx; [done|].
        rewrite length_alter. by apply lookup_ge_None.
    + rewrite list_lookup_insert_ne, list_lookup_alter_ne by done. done.
  - destruct (GetDiagonal (mkDist h cols) !! c); done.
Qed.

(** ** The scan of the schedule *)

Lemma skip_degree_spec ds deglen i : ∀ n jj,
  Z.of_nat (length ds) = deglen → deglen ≤ INT_MAX →
  0 ≤ jj ≤ deglen → n = Z.to_nat (deglen - jj) →
  ∃ j', skip_degree n ds deglen i jj = Val j'
        ∧ jj ≤ j' ≤ deglen
        ∧ (∀ k, jj ≤ k < j' → ds !! Z.to_nat k = Some i)
        ∧ (j' < deglen → ds !! Z.to_nat j' ≠ Some i).
Proof.
  induction n as [|n IH]; intros jj Hlen Hmax Hj Hn; simpl.
  - exists jj. repeat split; try lia.
  - destruct (Z.ltb_spec jj deglen) as [Hlt|]; [|lia].
    destruct (lookup_lt_is_Some_2 ds (Z.to_nat jj)) as [d Hd]; [lia|].
    rewrite (read_lookup _ _ d) by (done || lia). simpl.
    destruct (Z.eqb_spec d i) as [->|Hne].
    + unfold int_add. rewrite int_val_ok by (unfold INT_MIN, INT_MAX in *; lia). simpl.
      destruct (IH (jj + 1)) as (j' & Hrun & Hle & Hall & Hstop); try done; try lia.
      exists j'. repeat split; try done; try lia.
      intros k Hk. destruct (decide (k = jj)) as [->|]; [done|]. apply Hall. lia.
    + exists jj. repeat split; try lia.
      intros _. rewrite Hd. congruence.
Qed.

Lemma while_degree_is_spec ds deglen i jj :
  Z.of_nat (length ds) = deglen → deglen ≤ INT_MAX → 0 ≤ jj ≤ deglen →
  ∃ j', while_degree_is ds deglen i jj = Val j'
        ∧ jj ≤ j' ≤ deglen
        ∧ (∀ k, jj ≤ k < j' → ds !! Z.to_nat k = Some i)
        ∧ (j' < deglen → ds !! Z.to_nat j' ≠ Some i).
Proof. intros. by apply skip_degree_spec. Qed.

(** ** One degree of the loop *)

Lemma even_of_nat n : Z.even (Z.of_nat n) = Nat.even n.
Proof.
  induction n as [n IH] using (well_founded_induction lt_wf).
  destruct n as [|[|n]]; [done..|].
  rewrite Nat.even_succ_succ, <- IH by lia.
  replace (Z.of_nat (S (S n))) with (Z.of_nat n + 2) by lia.
  rewrite Z.even_add. by destruct (Z.even (Z.of_nat n)).
Qed.

Lemma rem2_of_nat n : (Z.rem (Z.of_nat n) 2 =? 0) = Nat.even n.
Proof. rewrite Z.rem_mod_nonneg by lia. by rewrite <- Zeven_mod, even_of_nat. Qed.

Lemma take_views_val line N s w fr :
  0 ≤ s → 0 ≤ w →
  0 ≤ N ≤ Z.of_nat (Height (V fr)) → N ≤ Z.of_nat (Height (W fr)) →
  s + w ≤ Z.of_nat (Width (V fr)) → s + w ≤ Z.of_nat (Width (W fr)) →
  take_views line N s w fr
  = Val (block N s w, block N s w, add_view (line + 1) s w (add_view line s w fr)).
Proof.
  intros Hs Hw HNV HNW HsV HsW. unfold take_views.
  rewrite View_block by done. simpl. by rewrite View_block by (done || lia).
Qed.

Lemma multiply_val uplo N e sigma_scale i fr :
  0 ≤ start fr → 0 ≤ width fr →
  0 ≤ N ≤ Z.of_nat (Height (V fr)) → N ≤ Z.of_nat (Height (W fr)) →
  start fr + width fr ≤ Z.of_nat (Width (V fr)) →
  start fr + width fr ≤ Z.of_nat (Width (W fr)) →
  INT_MIN ≤ total_vcts_filtered fr + width fr ≤ INT_MAX →
  multiply uplo N e sigma_scale i fr
  = Val (multiplied_with uplo N
           (fof (rdiv (rmul r_two (next_sigma sigma_scale (sigma fr))) e))
           (fof (rmul (ropp (sigma fr)) (next_sigma sigma_scale (sigma fr))))
           (next_sigma sigma_scale (sigma fr)) 177 i fr).
Proof.
  intros Hs Hw HNV HNW HsV HsW Htot. unfold multiply.
  rewrite take_views_val by done. simpl.
  unfold int_add, multiplied_with, next_sigma.
  destruct (Z.rem i 2 =? 0); simpl; rewrite int_val_ok by done; simpl;
    unfold set_sigma, set_total, set_V, set_W, add_view; simpl;
    by rewrite <- app_assoc.
Qed.

Lemma deflate_val N ds deglen i fr :
  Z.of_nat (length ds) = deglen → deglen ≤ INT_MAX → 0 ≤ j fr ≤ deglen →
  0 ≤ start fr → start fr + width fr ≤ INT_MAX → deglen - j fr ≤ width fr →
  0 ≤ N ≤ Z.of_nat (Height (V fr)) → N ≤ Z.of_nat (Height (W fr)) →
  start fr + width fr ≤ Z.of_nat (Width (V fr)) →
  start fr + width fr ≤ Z.of_nat (Width (W fr)) →
  ∃ j', deflate N (Some ds) deglen i fr = Val (left_at N i j' fr)
        ∧ j fr ≤ j' ≤ deglen
        ∧ (∀ k, j fr ≤ k < j' → ds !! Z.to_nat k = Some i)
        ∧ (j' < deglen → ds !! Z.to_nat j' ≠ Some i).
Proof.
  intros Hlen Hmax Hj Hs Hint Hw HNV HNW HsV HsW.
  destruct (while_degree_is_spec ds deglen i (j fr)) as (j' & Hrun & Hle & Hall & Hstop);
    try done.
  exists j'. repeat split; try done; try lia.
  unfold deflate. rewrite Hrun. simpl. unfold int_sub, int_add.
  rewrite int_val_ok by (unfold INT_MIN, INT_MAX in *; lia). simpl.
  rewrite int_val_ok by (unfold INT_MIN, INT_MAX in *; lia). simpl.
  unfold left_at.
  destruct ((Z.rem i 2 =? 0) && (0 <? j' - j fr)) eqn:Hcopy; simpl.
  - rewrite take_views_val by (simpl; lia). simpl.
    rewrite int_val_ok by (unfold INT_MIN, INT_MAX in *; lia). simpl.
    unfold set_start, set_W, add_view, set_width, set_j. simpl.
    by rewrite <- app_assoc.
  - rewrite int_val_ok by (unfold INT_MIN, INT_MAX in *; lia). done.
Qed.

Lemma range_true s w c : s ≤ c < s + w → (s <=? c) && (c <? s + w) = true.
Proof.
  intros H. destruct (Z.leb_spec s c), (Z.ltb_spec c (s + w)); simpl; try lia; done.
Qed.

Lemma range_false s w c : ¬ (s ≤ c < s + w) → (s <=? c) && (c <? s + w) = false.
Proof.
  intros H. destruct (Z.leb_spec s c), (Z.ltb_spec c (s + w)); simpl; try lia; done.
Qed.

Lemma Hemm_lookup_out uplo alpha M B beta C N s w (c : nat) :
  0 ≤ s → 0 ≤ w → ¬ (s ≤ Z.of_nat c < s + w) →
  Cols (Hemm uplo alpha M B (block N s w) beta C (block N s w)) !! c = Cols C !! c.
Proof.
  intros Hs Hw Hout. unfold Hemm. simpl.
  rewrite list_lookup_imap, in_cols_block, range_false by done.
  by destruct (Cols C !! c).
Qed.

Lemma CopyView_lookup_out (S D : DistMatrix F) N s w (c : nat) :
  0 ≤ s → 0 ≤ w → ¬ (s ≤ Z.of_nat c < s + w) →
  Cols (CopyView S (block N s w) D (block N s w)) !! c = Cols D !! c.
Proof.
  intros Hs Hw Hout. unfold CopyView. simpl.
  rewrite list_lookup_imap, in_cols_block, range_false by done.
  by destruct (Cols D !! c).
Qed.

Lemma coefficients_succ e sigma_scale n :
  (1 ≤ n)%nat →
  coefficients e sigma_scale (S n)
  = (fof (rdiv (rmul r_two (next_sigma sigma_scale (sigma_after sigma_scale (n - 1)))) e),
     fof (rmul (ropp (sigma_after sigma_scale (n - 1)))
               (next_sigma sigma_scale (sigma_after sigma_scale (n - 1))))).
Proof. intros Hn. destruct n as [|n]; [lia|]. simpl. by rewrite Nat.sub_0_r. Qed.

Lemma expected_outside cl n jj (c : nat) v w :
  ¬ (c_start cl ≤ Z.of_nat c < c_start cl + c_width cl) →
  expected cl n jj c v w = (v, w).
Proof.
  intros H. unfold expected.
  destruct (Z.ltb_spec (Z.of_nat c - c_start cl) 0),
    (Z.leb_spec (c_width cl) (Z.of_nat c - c_start cl)); simpl; try lia; done.
Qed.

Lemma expected_gone cl n jj (c : nat) v w :
  c_start cl ≤ Z.of_nat c < c_start cl + c_width cl →
  Z.of_nat c - c_start cl < jj →
  expected cl n jj c v w
  = deflated (c_uplo cl) (c_A cl) (c_e cl) (c_sigma_scale cl)
      (Z.to_nat (default 0 (schedule cl !! Z.to_nat (Z.of_nat c - c_start cl)))) v w.
Proof.
  intros H Hj. unfold expected.
  destruct (Z.ltb_spec (Z.of_nat c - c_start cl) 0),
    (Z.leb_spec (c_width cl) (Z.of_nat c - c_start cl)); simpl; try lia.
  destruct (Z.ltb_spec (Z.of_nat c - c_start cl) jj); [done|lia].
Qed.

Lemma expected_active cl n jj (c : nat) v w :
  c_start cl ≤ Z.of_nat c < c_start cl + c_width cl →
  jj ≤ Z.of_nat c - c_start cl →
  expected cl n jj c v w
  = buffers (c_uplo cl) (c_A cl) (c_e cl) (c_sigma_scale cl) n v w.
Proof.
  intros H Hj. unfold expected.
  destruct (Z.ltb_spec (Z.of_nat c - c_start cl) 0),
    (Z.leb_spec (c_width cl) (Z.of_nat c - c_start cl)); simpl; try lia.
  destruct (Z.ltb_spec (Z.of_nat c - c_start cl) jj); [lia|done].
Qed.

Lemma buffers_succ uplo M e sigma_scale n v w :
  buffers uplo M e sigma_scale (S n) v w
  = let b := buffers uplo M e sigma_scale n v w in
    let co := coefficients e sigma_scale (S n) in
    if Nat.even (S n)
    then (hemm_column uplo co.1 M 0 b.2 co.2 0 (Height M) b.1, b.2)
    else (b.1, hemm_column uplo co.1 M 0 b.1 co.2 0 (Height M) b.2).
Proof.
  cbn [buffers]. destruct (buffers uplo M e sigma_scale n v w) as [bv bw].
  by destruct (coefficients e sigma_scale (S n)) as [al be].
Qed.

Lemma step_inv cl n fr alpha beta line j' :
  good_call cl → Inv cl n fr → Z.of_nat (S n) ≤ c_degmax cl →
  coefficients (c_e cl) (c_sigma_scale cl) (S n) = (alpha, beta) →
  line ≠ 206 → line ≠ 205 →
  j fr ≤ j' ≤ schedule_len cl →
  (∀ k, j fr ≤ k < j' → schedule cl !! Z.to_nat k = Some (Z.of_nat (S n))) →
  (j' < schedule_len cl → schedule cl !! Z.to_nat j' ≠ Some (Z.of_nat (S n))) →
  Inv cl (S n)
    (left_at (c_N cl) (Z.of_nat (S n)) j'
       (multiplied_with (c_uplo cl) (c_N cl) alpha beta
          (sigma_after (c_sigma_scale cl) n) line (Z.of_nat (S n)) fr)).
Proof.
  intros Hgc Hinv Hdm Hco Hl1 Hl2 Hj' Hall Hstop.
  destruct Hgc as [gstart gwidth gWV gWW gint gHV gHW glen gslen gpos gasc gtop gdm gtot].
  destruct Hinv as [iA iHV iHW iWV iWW ij istart iwidth idone itodo isig itot itotn iviews
    ioutV ioutW icols].
  unfold left_at, multiplied_with. cbn [A V W start width j sigma total_vcts_filtered views].
  rewrite rem2_of_nat.
  split; cbn [A V W start width j sigma total_vcts_filtered views].
  - done.
  - destruct (Nat.even (S n)); [by rewrite Height_Hemm|done].
  - destruct (Nat.even (S n) && _), (Nat.even (S n));
      rewrite ?Height_CopyView, ?Height_Hemm; done.
  - destruct (Nat.even (S n)); [by rewrite Width_Hemm|done].
  - destruct (Nat.even (S n) && _), (Nat.even (S n));
      rewrite ?Width_CopyView, ?Width_Hemm; done.
  - lia.
  - lia.
  - lia.
  - intros k dk Hk Hd. destruct (decide (k < j fr)) as [Hlt|Hge].
    + specialize (idone k dk ltac:(lia) Hd). lia.
    + rewrite Hall in Hd by lia. injection Hd as <-. lia.
  - intros k dk Hk Hd.
    assert (Hkn : Z.of_nat (Z.to_nat k) = k) by lia.
    apply lookup_lt_Some in Hd as Hlt.
    assert (Hj'lt : j' < schedule_len cl) by lia.
    destruct (lookup_lt_is_Some_2 (schedule cl) (Z.to_nat j')) as [dj Hdj]; [lia|].
    specialize (itodo j' dj ltac:(lia) Hdj).
    specialize (Hstop Hj'lt).
    assert (dj ≤ dk) by (apply (gasc (Z.to_nat j') (Z.to_nat k)); [lia|done..]).
    assert (dj ≠ Z.of_nat (S n)) by congruence. lia.
  - f_equal. lia.
  - nia.
  - intros Hnone. rewrite itotn by done.
    assert (schedule_len cl = 0) by (unfold schedule_len; by rewrite Hnone). nia.
  - assert (Hv1 : Forall (view_ok cl)
       (views fr ++ [(line, start fr, width fr); (line + 1, start fr, width fr)])).
    { apply Forall_app. split; [done|]. repeat constructor; simpl; lia. }
    destruct (Nat.even (S n) && _); [|done].
    apply Forall_app. split; [done|]. repeat constructor; simpl; lia.
  - intros c Hout. rewrite <- ioutV by done.
    destruct (Nat.even (S n)); [|done]. apply Hemm_lookup_out; lia.
  - intros c Hout. rewrite <- ioutW by done.
    destruct (Nat.even (S n)); cbn [andb].
    + destruct (0 <? j' - j fr); [|done]. apply CopyView_lookup_out; lia.
    + apply Hemm_lookup_out; lia.
  - intros c v w Hv Hw. destruct (icols c v w Hv Hw) as [HV HW].
    assert (HN : Z.to_nat (c_N cl) = Height (c_A cl)) by (unfold c_N; lia).
    pose proof (Hemm_lookup (c_uplo cl) alpha (A fr) (W fr) beta (V fr) (c_N cl)
                  (start fr) (width fr) c _ _ ltac:(lia) ltac:(lia) HW HV) as HVh.
    pose proof (Hemm_lookup (c_uplo cl) alpha (A fr) (V fr) beta (W fr) (c_N cl)
                  (start fr) (width fr) c _ _ ltac:(lia) ltac:(lia) HV HW) as HWh.
    rewrite HN, iA in HVh, HWh. rewrite !iA.
    assert (Hdefl : ∀ k, j fr ≤ k < j' →
              Z.to_nat (default 0 (schedule cl !! Z.to_nat k)) = S n).
    { intros k Hk. rewrite Hall by done. simpl. lia. }
    rewrite (surjective_pairing (expected cl (S n) j' c v w)).
    destruct (decide (c_start cl ≤ Z.of_nat c < c_start cl + c_width cl)) as [Hin|Hout];
      [destruct (decide (Z.of_nat c - c_start cl < j fr)) as [Hgone|Hact];
       [|destruct (decide (Z.of_nat c - c_start cl < j')) as [Hnow|Hlater]]|].
    + (* gone before *)
      rewrite range_false in HVh, HWh by lia.
      rewrite (expected_gone cl (S n)) by lia.
      rewrite (expected_gone cl n) in HV, HW, HVh, HWh by lia.
      destruct (Nat.even (S n)); cbn [andb fst snd].
      * split; [done|]. destruct (0 <? j' - j fr) eqn:Hlv; [|done].
        rewrite (CopyView_lookup _ _ (c_N cl) (start fr) (j' - j fr) c _ _
                   ltac:(lia) ltac:(lia) HVh HW).
        by rewrite range_false by lia.
      * done.
    + (* leaves now *)
      rewrite range_true in HVh, HWh by lia.
      rewrite (expected_gone cl (S n)) by lia.
      rewrite (expected_active cl n) in HV, HW, HVh, HWh by lia.
      rewrite Hdefl by lia. unfold deflated. rewrite buffers_succ, Hco. cbv zeta. cbn [fst snd].
      destruct (Nat.even (S n)); cbn [andb fst snd].
      * split; [done|]. destruct (Z.ltb_spec 0 (j' - j fr)); [|lia].
        rewrite (CopyView_lookup _ _ (c_N cl) (start fr) (j' - j fr) c _ _
                   ltac:(lia) ltac:(lia) HVh HW).
        rewrite range_true by lia. by rewrite HN.
      * done.
    + (* still active *)
      rewrite range_true in HVh, HWh by lia.
      rewrite (expected_active cl (S n)) by lia.
      rewrite (expected_active cl n) in HV, HW, HVh, HWh by lia.
      rewrite buffers_succ, Hco. cbv zeta. cbn [fst snd].
      destruct (Nat.even (S n)); cbn [andb fst snd].
      * split; [done|]. destruct (0 <? j' - j fr) eqn:Hlv; [|done].
        rewrite (CopyView_lookup _ _ (c_N cl) (start fr) (j' - j fr) c _ _
                   ltac:(lia) ltac:(lia) HVh HW).
        by rewrite range_false by lia.
      * done.
    + (* outside the range of the call *)
      rewrite range_false in HVh, HWh by lia.
      rewrite (expected_outside cl (S n)) by done.
      rewrite (expected_outside cl n) in HV, HW, HVh, HWh by done.
      destruct (Nat.even (S n)); cbn [andb fst snd].
      * split; [done|]. destruct (0 <? j' - j fr) eqn:Hlv; [|done].
        rewrite (CopyView_lookup _ _ (c_N cl) (start fr) (j' - j fr) c _ _
                   ltac:(lia) ltac:(lia) HVh HW).
        by rewrite range_false by lia.
      * done.
Qed.

Lemma left_at_same N i fr : left_at N i (j fr) fr = fr.
Proof.
  unfold left_at. rewrite Z.sub_diag, Z.add_0_r, Z.sub_0_r.
  replace (0 <? 0) with false by done. rewrite andb_false_r. by destruct fr.
Qed.

Lemma schedule_len_max cl : good_call cl → schedule_len cl ≤ INT_MAX.
Proof. intros [??????????????]. lia. Qed.

Lemma iteration_inv cl n fr :
  good_call cl → Inv cl n fr → (1 ≤ n)%nat → Z.of_nat (S n) ≤ c_degmax cl →
  ∃ fr', iteration (c_uplo cl) (c_N cl) (c_e cl) (c_sigma_scale cl)
           (c_degrees cl) (c_deglen cl) (Z.of_nat (S n)) fr = Val fr'
         ∧ Inv cl (S n) fr'.
Proof.
  intros Hgc Hinv Hn Hdm.
  pose proof (schedule_len_max cl Hgc) as Hmax.
  pose proof Hgc as [gstart gwidth gWV gWW gint gHV gHW glen gslen gpos gasc gtop gdm gtot].
  pose proof Hinv as [iA iHV iHW iWV iWW ij istart iwidth idone itodo isig itot itotn iviews
    ioutV ioutW icols].
  assert (Hsig : next_sigma (c_sigma_scale cl) (sigma fr) = sigma_after (c_sigma_scale cl) n).
  { rewrite isig. destruct n as [|n']; [lia|]. simpl. by rewrite Nat.sub_0_r. }
  unfold iteration.
  rewrite multiply_val; try (unfold c_N, INT_MIN in *; lia); [|unfold INT_MIN; nia].
  cbn [mbind Res_bind]. rewrite !Hsig.
  set (fr1 := multiplied_with _ _ _ _ _ _ _ _).
  assert (Hco : coefficients (c_e cl) (c_sigma_scale cl) (S n)
                = (fof (rdiv (rmul r_two (sigma_after (c_sigma_scale cl) n)) (c_e cl)),
                   fof (rmul (ropp (sigma fr)) (sigma_after (c_sigma_scale cl) n)))).
  { rewrite coefficients_succ by done. by rewrite <- isig, Hsig. }
  destruct (c_degrees cl) as [ds|] eqn:Hdeg.
  - assert (Hsched : schedule cl = ds) by (unfold schedule; by rewrite Hdeg).
    assert (Hslen : schedule_len cl = c_deglen cl) by (unfold schedule_len; by rewrite Hdeg).
    assert (Hlen : Z.of_nat (length ds) = c_deglen cl) by (by rewrite <- Hsched, glen).
    destruct (deflate_val (c_N cl) ds (c_deglen cl) (Z.of_nat (S n)) fr1)
      as (j' & Hrun & Hle & Hall & Hstop);
      [subst fr1; unfold multiplied_with; cbn [A V W start width j];
       repeat case_match;
       rewrite ?Height_Hemm, ?Width_Hemm; unfold c_N; lia..|].
    exists (left_at (c_N cl) (Z.of_nat (S n)) j' fr1). split; [done|].
    apply step_inv; try done; try lia.
    + subst fr1. simpl in Hle. lia.
    + by rewrite Hsched.
    + by rewrite Hsched, Hslen.
  - exists fr1. split; [done|].
    rewrite <- (left_at_same (c_N cl) (Z.of_nat (S n)) fr1).
    assert (Hslen : schedule_len cl = 0) by (unfold schedule_len; by rewrite Hdeg).
    apply step_inv; try done; try (subst fr1; simpl; lia).
Qed.

Lemma bind_Val {X Y} (x : X) (k : X → Res Y) : (Val x ≫= k) = k x.
Proof. reflexivity. Qed.

Lemma for_loop_succ uplo N e sigma_scale degrees deglen n i fr :
  for_loop uplo N e sigma_scale degrees deglen (S n) i fr
  = (fr1 ← iteration uplo N e sigma_scale degrees deglen i fr;
     i' ← int_add i 1;
     for_loop uplo N e sigma_scale degrees deglen n i' fr1).
Proof. reflexivity. Qed.

Lemma int_add_succ (n : nat) :
  Z.of_nat n < INT_MAX → int_add (Z.of_nat n) 1 = Val (Z.of_nat (S n)).
Proof.
  intros H. unfold int_add. rewrite int_val_ok by (unfold INT_MIN, INT_MAX in *; lia).
  f_equal. lia.
Qed.

Lemma for_loop_inv cl : ∀ count n fr,
  good_call cl → Inv cl n fr → (1 ≤ n)%nat → Z.of_nat (n + count) ≤ c_degmax cl →
  ∃ fr', for_loop (c_uplo cl) (c_N cl) (c_e cl) (c_sigma_scale cl)
           (c_degrees cl) (c_deglen cl) count (Z.of_nat (S n)) fr = Val fr'
         ∧ Inv cl (n + count) fr'.
Proof.
  induction count as [|count IH]; intros n fr Hgc Hinv Hn Hdm.
  - exists fr. split; [reflexivity|]. rewrite Nat.add_0_r. exact Hinv.
  - assert (H0 : Z.of_nat (S n) ≤ c_degmax cl) by lia.
    destruct (iteration_inv cl n fr Hgc Hinv Hn H0) as (fr1 & Hrun & Hinv1).
    rewrite for_loop_succ, Hrun, bind_Val.
    pose proof (gc_degmax cl Hgc) as Hd.
    rewrite int_add_succ, bind_Val by lia.
    assert (H1 : (1 ≤ S n)%nat) by lia.
    assert (H2 : Z.of_nat (S n + count) ≤ c_degmax cl) by lia.
    destruct (IH (S n) fr1 Hgc Hinv1 H1 H2) as (fr' & Hrun' & Hinv').
    exists fr'. split; [exact Hrun'|].
    replace (n + S count)%nat with (S n + count)%nat by lia. exact Hinv'.
Qed.

(** ** The first step *)

Lemma Inv_entry cl : good_call cl → Inv cl 0 (entry_frame cl).
Proof.
  intros [gstart gwidth gWV gWW gint gHV gHW glen gslen gpos gasc gtop gdm gtot].
  split; unfold entry_frame; cbn [A V W start width j sigma total_vcts_filtered views];
    try done; try lia.
  - intros k dk Hk Hd. apply gpos in Hd. lia.
  - intros c v w Hv Hw. rewrite Hv, Hw.
    destruct (decide (c_start cl ≤ Z.of_nat c < c_start cl + c_width cl)).
    + by rewrite expected_active by lia.
    + by rewrite expected_outside by lia.
Qed.

Lemma AssertValidSubmatrix_ok (M : DistMatrix F) N sw :
  0 ≤ N ≤ Z.of_nat (Height M) → 0 ≤ sw ≤ Z.of_nat (Width M) →
  AssertValidSubmatrix M 0 0 N sw = true.
Proof.
  intros HN Hsw. unfold AssertValidSubmatrix.
  destruct (Z.ltb_spec 0 0), (Z.ltb_spec N 0), (Z.ltb_spec sw 0),
    (Z.ltb_spec (Z.of_nat (Height M)) (0 + N)),
    (Z.ltb_spec (Z.of_nat (Width M)) (0 + sw)); simpl; try lia; done.
Qed.

Lemma first_frame_total cl :
  set_total (0 + c_width cl) (first_frame cl)
  = multiplied_with (c_uplo cl) (c_N cl) (first_alpha cl) (fof r_zero)
      (c_sigma_scale cl) 98 1 (entry_frame cl).
Proof. reflexivity. Qed.

Lemma first_step_inv macro cl :
  good_call cl →
  ∃ fr1, Inv cl 1 fr1
    ∧ first_step macro (c_uplo cl) (c_N cl) (c_e cl) (c_sigma_scale cl)
        (c_degrees cl) (c_deglen cl) (entry_frame cl)
      = first_step_outcome macro cl fr1.
Proof.
  intros Hgc.
  pose proof (schedule_len_max cl Hgc) as Hmax.
  pose proof (Inv_entry cl Hgc) as Hinv0.
  pose proof Hgc as [gstart gwidth gWV gWW gint gHV gHW glen gslen gpos gasc gtop gdm gtot].
  unfold first_step, first_step_outcome.
  cbn [start width V W A j total_vcts_filtered entry_frame].
  unfold int_add.
  rewrite (int_val_ok (c_start cl + c_width cl)) by (unfold INT_MIN in *; lia).
  rewrite bind_Val.
  rewrite !AssertValidSubmatrix_ok by (unfold c_N; lia). cbn [negb].
  fold (entry_frame cl).
  rewrite (take_views_val 98 (c_N cl) (c_start cl) (c_width cl) (entry_frame cl))
    by (unfold entry_frame; cbn [start width V W A j total_vcts_filtered]; unfold c_N; lia).
  rewrite bind_Val. cbv beta iota zeta. fold (scanned_frame cl).
  fold (first_alpha cl). fold (first_frame cl).
  match goal with
  | |- context [if _ then _ else if _ then _ else ?tail] =>
      assert (Htail : ∃ fr1, Inv cl 1 fr1 ∧ tail = Val fr1)
  end.
  { change (total_vcts_filtered (first_frame cl)) with 0.
    change (width (first_frame cl)) with (c_width cl).
    rewrite int_val_ok, bind_Val by (unfold INT_MIN in *; lia).
    rewrite first_frame_total.
    set (fr1 := multiplied_with _ _ _ _ _ _ _ _).
    assert (Hstep : ∀ j', 0 ≤ j' ≤ schedule_len cl →
      (∀ k, 0 ≤ k < j' → schedule cl !! Z.to_nat k = Some 1) →
      (j' < schedule_len cl → schedule cl !! Z.to_nat j' ≠ Some 1) →
      Inv cl 1 (left_at (c_N cl) 1 j' fr1)).
    { intros j' Hj' Hall Hstop.
      apply (step_inv cl 0 (entry_frame cl) (first_alpha cl) (fof r_zero) 98 j');
        [done|done|change (Z.of_nat 1) with 1; lia|reflexivity|lia|lia
        |change (j (entry_frame cl)) with 0; lia|exact Hall|exact Hstop]. }
    destruct (c_degrees cl) as [ds|] eqn:Hdeg.
    - assert (Hsched : schedule cl = ds) by (unfold schedule; by rewrite Hdeg).
      assert (Hslen : schedule_len cl = c_deglen cl) by (unfold schedule_len; by rewrite Hdeg).
      assert (Hlen : Z.of_nat (length ds) = c_deglen cl) by (by rewrite <- Hsched, glen).
      destruct (while_degree_is_spec ds (c_deglen cl) 1 0)
        as (j' & Hrun & Hle & Hall & Hstop); [done|lia|lia|].
      change (j fr1) with 0. change (width fr1) with (c_width cl).
      change (start fr1) with (c_start cl).
      rewrite Hrun, bind_Val. unfold int_sub.
      rewrite (int_val_ok (c_width cl - j')), bind_Val by (unfold INT_MIN, INT_MAX in *; lia).
      rewrite (int_val_ok (c_start cl + j')), bind_Val by (unfold INT_MIN, INT_MAX in *; lia).
      exists (left_at (c_N cl) 1 j' fr1). split.
      + apply Hstep; rewrite ?Hsched, ?Hslen; done.
      + f_equal. unfold left_at, set_start, set_width, set_j.
        cbn [A V W start width j sigma total_vcts_filtered views].
        change (j fr1) with 0. change (width fr1) with (c_width cl).
        change (start fr1) with (c_start cl). rewrite Z.sub_0_r. done.
    - exists fr1. split; [|done].
      rewrite <- (left_at_same (c_N cl) 1 fr1).
      assert (Hslen : schedule_len cl = 0) by (unfold schedule_len; by rewrite Hdeg).
      apply Hstep; change (j fr1) with 0; lia. }
  destruct Htail as (fr1 & Hinv1 & ->). exists fr1. split; [done|].
  by repeat case_match.
Qed.

(** ** After the loop *)

Lemma result_at_outside cl (c : nat) v w :
  ¬ (c_start cl ≤ Z.of_nat c < c_start cl + c_width cl) →
  result_at cl c v w = (v, w).
Proof.
  intros H. unfold result_at.
  destruct (Z.ltb_spec (Z.of_nat c - c_start cl) 0),
    (Z.leb_spec (c_width cl) (Z.of_nat c - c_start cl)); simpl; try lia; done.
Qed.

Lemma result_at_inside cl (c : nat) v w :
  c_start cl ≤ Z.of_nat c < c_start cl + c_width cl →
  result_at cl c v w
  = deflated (c_uplo cl) (c_A cl) (c_e cl) (c_sigma_scale cl)
      (Z.to_nat (default (c_degmax cl)
                   (schedule cl !! Z.to_nat (Z.of_nat c - c_start cl)))) v w.
Proof.
  intros H. unfold result_at.
  destruct (Z.ltb_spec (Z.of_nat c - c_start cl) 0),
    (Z.leb_spec (c_width cl) (Z.of_nat c - c_start cl)); simpl; try lia; done.
Qed.

Lemma final_copy_done cl n fr :
  good_call cl → Inv cl n fr → Z.of_nat n = c_degmax cl →
  ∃ fr', final_copy (c_N cl) (c_degmax cl) fr = Val fr' ∧ Done cl fr'.
Proof.
  intros Hgc Hinv Hn.
  pose proof Hgc as [gstart gwidth gWV gWW gint gHV gHW glen gslen gpos gasc gtop gdm gtot].
  pose proof Hinv as [iA iHV iHW iWV iWW ij istart iwidth idone itodo isig itot itotn iviews
    ioutV ioutW icols].
  assert (Hj : j fr = schedule_len cl).
  { destruct (decide (j fr < schedule_len cl)) as [Hlt|]; [|lia].
    destruct (lookup_lt_is_Some_2 (schedule cl) (Z.to_nat (j fr))) as [dk Hdk]; [lia|].
    pose proof (gtop _ _ Hdk). pose proof (itodo (j fr) dk ltac:(lia) Hdk). lia. }
  assert (HN : Z.to_nat (c_N cl) = Height (c_A cl)) by (unfold c_N; lia).
  assert (Hcase : ∀ c v w,
    (start fr ≤ Z.of_nat c < start fr + width fr
     ∧ result_at cl c v w
       = deflated (c_uplo cl) (c_A cl) (c_e cl) (c_sigma_scale cl) n v w
     ∧ expected cl n (j fr) c v w
       = buffers (c_uplo cl) (c_A cl) (c_e cl) (c_sigma_scale cl) n v w)
    ∨ (¬ (start fr ≤ Z.of_nat c < start fr + width fr)
       ∧ result_at cl c v w = expected cl n (j fr) c v w)).
  { intros c v w.
    destruct (decide (c_start cl ≤ Z.of_nat c < c_start cl + c_width cl)) as [Hin|Hout];
      [destruct (decide (Z.of_nat c - c_start cl < j fr)) as [Hgone|Hact]|].
    - right. split; [lia|].
      rewrite result_at_inside, expected_gone by lia.
      destruct (lookup_lt_is_Some_2 (schedule cl) (Z.to_nat (Z.of_nat c - c_start cl)))
        as [dk Hdk]; [lia|]. by rewrite Hdk.
    - left. split; [lia|].
      rewrite result_at_inside, expected_active by lia.
      rewrite (proj2 (lookup_ge_None (schedule cl) _)) by lia.
      simpl. rewrite <- Hn, Nat2Z.id. done.
    - right. split; [lia|]. by rewrite result_at_outside, expected_outside by lia. }
  unfold final_copy. rewrite <- Hn, rem2_of_nat.
  destruct (Nat.even n) eqn:Hev.
  - rewrite take_views_val by (unfold c_N; lia). rewrite bind_Val.
    eexists. split; [reflexivity|].
    split; unfold set_W, add_view; cbn [A V W start width j sigma total_vcts_filtered views];
      rewrite ?Height_CopyView, ?Width_CopyView, <- ?Hn; try done; try lia.
    + apply Forall_app. split; [|repeat constructor; simpl; lia].
      apply Forall_app. split; [done|]. repeat constructor; simpl; lia.
    + intros c Hout. rewrite <- ioutW by done. apply CopyView_lookup_out; lia.
    + intros c v w Hv Hw. destruct (icols c v w Hv Hw) as [HV HW].
      rewrite (CopyView_lookup _ _ (c_N cl) (start fr) (width fr) c _ _
                 ltac:(lia) ltac:(lia) HV HW).
      rewrite HV, HN.
      destruct (Hcase c v w) as [(Hr & -> & ->)|(Hr & ->)].
      * rewrite range_true by done. unfold deflated.
        destruct (buffers _ _ _ _ n v w) as [bv bw]. by rewrite Hev.
      * by rewrite range_false by done.
  - exists fr. split; [done|].
    split; rewrite <- ?Hn; try done; try lia.
    intros c v w Hv Hw. destruct (icols c v w Hv Hw) as [HV HW].
    rewrite HV, HW.
    destruct (Hcase c v w) as [(Hr & -> & ->)|(Hr & ->)]; [|done].
    unfold deflated. destruct (buffers _ _ _ _ n v w) as [bv bw]. by rewrite Hev.
Qed.

Lemma ascending_lookup : ∀ ds (k1 k2 : nat) d1 d2,
  ascending ds = true → (k1 ≤ k2)%nat →
  ds !! k1 = Some d1 → ds !! k2 = Some d2 → d1 ≤ d2.
Proof.
  assert (Hhead : ∀ ds x k d, ascending (x :: ds) = true → ds !! k = Some d → x ≤ d).
  { induction ds as [|y ds IH]; intros x k d Hasc Hd; [done|].
    cbn [ascending] in Hasc. apply andb_prop in Hasc as [Hxy Hasc].
    apply Z.leb_le in Hxy. destruct k as [|k].
    - simpl in Hd. injection Hd as <-. done.
    - simpl in Hd. specialize (IH y k d Hasc Hd). lia. }
  induction ds as [|x ds IH]; intros k1 k2 d1 d2 Hasc Hk H1 H2; [done|].
  destruct k1 as [|k1], k2 as [|k2]; simpl in H1, H2; try lia.
  - injection H1 as <-. injection H2 as <-. lia.
  - injection H1 as <-. by apply (Hhead ds x k2).
  - apply (IH k1 k2); try done; try lia.
    destruct ds; [done|]. cbn [ascending] in Hasc. by apply andb_prop in Hasc as [_ ?].
Qed.

Lemma degmax_of_valid deg ds deglen :
  Z.of_nat (length ds) = deglen → 1 ≤ deglen ≤ INT_MAX →
  degmax_of deg (Some ds) deglen = Val (top_degree deg (Some ds)).
Proof.
  intros Hlen Hd. unfold degmax_of, int_sub, top_degree.
  rewrite int_val_ok, bind_Val by (unfold INT_MIN, INT_MAX in *; lia).
  rewrite last_lookup.
  replace (Init.Nat.pred (length ds)) with (Z.to_nat (deglen - 1)) by lia.
  destruct (lookup_lt_is_Some_2 ds (Z.to_nat (deglen - 1))) as [d Hdl]; [lia|].
  rewrite (read_lookup _ _ d), bind_Val by (done || lia). by rewrite Hdl.
Qed.

Lemma good_call_of uplo m start width deg degrees deglen lambda lower upper :
  valid_call m start width deg degrees deglen →
  top_degree deg degrees ≠ 0 →
  good_call (call_of uplo m start width deg degrees deglen lambda lower upper).
Proof.
  intros (Hs & Hw & HWV & HWW & Hint & HHV & HHW & Hdeg & Hsch & Htop & Htot) Hnz.
  assert (Hsl : schedule_len (call_of uplo m start width deg degrees deglen lambda lower upper)
                = match degrees with None => 0 | Some _ => deglen end) by done.
  assert (Hsc : schedule (call_of uplo m start width deg degrees deglen lambda lower upper)
                = default [] degrees) by done.
  assert (Hge : ∀ k dk, default [] degrees !! k = Some dk →
            1 ≤ dk ≤ top_degree deg degrees).
  { destruct degrees as [ds|]; simpl; [|intros ??; by rewrite lookup_nil].
    destruct Hsch as (Hlen & Hd1 & Hdw & Hpos & Hasc).
    intros k dk Hk. split.
    - rewrite forallb_forall in Hpos. apply Z.leb_le, Hpos.
      apply list_elem_of_In, list_elem_of_lookup. eauto.
    - destruct (last ds) as [d|] eqn:Hlast.
      + rewrite last_lookup in Hlast.
        assert (dk ≤ d).
        { apply (ascending_lookup ds k (Init.Nat.pred (length ds))); try done.
          apply lookup_lt_Some in Hk. lia. }
        simpl. destruct (Z.geb_spec deg d); lia.
      + apply last_None in Hlast. subst ds. by rewrite lookup_nil in Hk. }
  split; cbn [call_of c_start c_width c_V c_W c_A c_degmax]; rewrite ?Hsl, ?Hsc; try done.
  - destruct degrees as [ds|]; simpl in *; [tauto|done].
  - destruct degrees as [ds|]; simpl in *; [lia|lia].
  - intros k dk Hk. apply Hge in Hk. lia.
  - intros k1 k2 d1 d2 Hk H1 H2. destruct degrees as [ds|]; simpl in *.
    + apply (ascending_lookup ds k1 k2); tauto.
    + by rewrite lookup_nil in H1.
  - intros k dk Hk. apply Hge in Hk. lia.
  - split; [|done]. destruct degrees as [ds|]; simpl in *.
    + destruct Hsch as (Hlen & Hd1 & Hdw & Hpos & Hasc).
      destruct (lookup_lt_is_Some_2 ds 0) as [d0 Hd0]; [lia|].
      apply (Hge 0%nat) in Hd0. lia.
    + lia.
Qed.

(** ** The whole call *)

Lemma bind_Exits {X Y} (mm : Mem) out (k : X → Res Y) : (Exits mm out ≫= k) = Exits mm out.
Proof. reflexivity. Qed.

Lemma filter_run_unfold macro uplo m start width deg degrees deglen lambda lower upper :
  let cl := call_of uplo m start width deg degrees deglen lambda lower upper in
  filter_run macro uplo m start width deg degrees deglen lambda lower upper
  = (degmax ← degmax_of deg degrees deglen;
     if degmax =? 0
     then Val (mkFrame (mA m) (mV m) (mW m) start width 0 (c_sigma_scale cl) 0 [])
     else
       fr ← first_step macro (c_uplo cl) (c_N cl) (c_e cl) (c_sigma_scale cl)
              (c_degrees cl) (c_deglen cl) (entry_frame cl);
       fr ← for_loop (c_uplo cl) (c_N cl) (c_e cl) (c_sigma_scale cl)
              (c_degrees cl) (c_deglen cl) (Z.to_nat (degmax - 1)) 2 fr;
       fr ← final_copy (c_N cl) degmax fr;
       Val (set_A (SetDiagonal (A fr) (GetDiagonal (mA m))) fr)).
Proof. reflexivity. Qed.

Lemma degmax_of_top m start width deg degrees deglen :
  valid_call m start width deg degrees deglen →
  degmax_of deg degrees deglen = Val (top_degree deg degrees).
Proof.
  intros (Hs & Hw & HWV & HWW & Hint & HHV & HHW & Hdeg & Hsch & Htop & Htot).
  destruct degrees as [ds|]; [|done].
  destruct Hsch as (Hlen & Hd1 & Hdw & Hpos & Hasc).
  apply degmax_of_valid; [done|lia].
Qed.

Lemma filter_run_done macro uplo m start width deg degrees deglen lambda lower upper :
  valid_call m start width deg degrees deglen →
  top_degree deg degrees ≠ 0 →
  let cl := call_of uplo m start width deg degrees deglen lambda lower upper in
  ∃ frd, Done cl frd
    ∧ filter_run macro uplo m start width deg degrees deglen lambda lower upper
      = first_step_outcome macro cl (set_A (mA m) frd).
Proof.
  intros Hvalid Hnz cl.
  pose proof (good_call_of uplo m start width deg degrees deglen lambda lower upper
                Hvalid Hnz) as Hgc.
  fold cl in Hgc.
  rewrite filter_run_unfold, (degmax_of_top m start width) by done. fold cl.
  rewrite bind_Val.
  destruct (Z.eqb_spec (top_degree deg degrees) 0) as [|_]; [done|].
  destruct (first_step_inv macro cl Hgc) as (fr1 & Hinv1 & ->).
  pose proof (gc_degmax cl Hgc) as Hdm. change (c_degmax cl) with (top_degree deg degrees) in Hdm.
  destruct (for_loop_inv cl (Z.to_nat (top_degree deg degrees - 1)) 1 fr1 Hgc Hinv1)
    as (fr2 & Hloop & Hinv2); [lia|change (c_degmax cl) with (top_degree deg degrees); lia|].
  change (Z.of_nat 2) with 2 in Hloop.
  destruct (final_copy_done cl _ fr2 Hgc Hinv2) as (frd & Hcopy & Hdone).
  { change (c_degmax cl) with (top_degree deg degrees). lia. }
  change (c_degmax cl) with (top_degree deg degrees) in Hcopy.
  exists frd. split; [done|].
  unfold first_step_outcome. repeat case_match; try done.
  rewrite bind_Val, Hloop, bind_Val, Hcopy, bind_Val.
  rewrite (done_A cl frd Hdone). unfold cl at 1, call_of. cbn [c_A].
  by rewrite SetDiagonal_ShiftDiagonal.
Qed.

Lemma is_exit_filter uplo m start width deg degrees deglen lambda lower upper :
  is_exit (filter uplo m start width deg degrees deglen lambda lower upper)
  = is_exit (filter_run SEARCH_NAN uplo m start width deg degrees deglen lambda lower upper).
Proof. unfold filter. by destruct (filter_run _ _ _ _ _ _ _ _ _ _ _). Qed.

(** A valid call that the scans do not end returns: either the maximum
    degree is zero and nothing was done, or the frame is the one after
    the loop with the diagonal written back. *)
Lemma filter_run_returns uplo m start width deg degrees deglen lambda lower upper :
  valid_call m start width deg degrees deglen →
  is_exit (filter uplo m start width deg degrees deglen lambda lower upper) = false →
  let cl := call_of uplo m start width deg degrees deglen lambda lower upper in
  ∃ fr,
    filter_run SEARCH_NAN uplo m start width deg degrees deglen lambda lower upper = Val fr
    ∧ filter uplo m start width deg degrees deglen lambda lower upper
      = Val (mem_of fr, total_vcts_filtered fr)
    ∧ ((top_degree deg degrees = 0
        ∧ fr = mkFrame (mA m) (mV m) (mW m) start width 0 (c_sigma_scale cl) 0 [])
       ∨ (top_degree deg degrees ≠ 0 ∧ ∃ frd, Done cl frd ∧ fr = set_A (mA m) frd)).
Proof.
  intros Hvalid Hexit cl. rewrite is_exit_filter in Hexit. unfold filter.
  destruct (decide (top_degree deg degrees = 0)) as [Hz|Hnz].
  - rewrite filter_run_unfold, (degmax_of_top m start width), bind_Val, Hz by done.
    eexists. split; [reflexivity|]. split; [reflexivity|]. left. by split.
  - destruct (filter_run_done SEARCH_NAN uplo m start width deg degrees deglen
                lambda lower upper Hvalid Hnz) as (frd & Hdone & Hrun).
    rewrite Hrun in Hexit |- *. unfold first_step_outcome in Hexit |- *.
    repeat case_match; try done.
    eexists. split; [reflexivity|]. split; [reflexivity|]. right. split; [done|].
    by exists frd.
Qed.

(** ** The operator is restored *)

(** C4: a valid call that the scans do not end returns with the operator
    of the caller: the matrix on return is the matrix on entry.  The
    proof uses [SetDiagonal_ShiftDiagonal], which holds for any scalar
    arithmetic because the saved entries are written back. *)
Theorem operator_restored uplo m start width deg degrees deglen lambda lower upper :
  valid_call m start width deg degrees deglen →
  is_exit (filter uplo m start width deg degrees deglen lambda lower upper) = false →
  ∃ m' ret,
    filter uplo m start width deg degrees deglen lambda lower upper = Val (m', ret)
    ∧ mA m' = mA m.
Proof.
  intros Hvalid Hexit.
  destruct (filter_run_returns uplo m start width deg degrees deglen lambda lower upper
              Hvalid Hexit) as (fr & _ & Hret & [[_ ->]|[_ (frd & _ & ->)]]);
    eexists _, _; (split; [exact Hret|done]).
Qed.

(** ** The cost metric *)

(** C5: without a schedule, a valid call that the scans do not end
    returns [width * deg]. *)
Theorem cost_without_schedule uplo m start width deg deglen lambda lower upper :
  valid_call m start width deg None deglen →
  is_exit (filter uplo m start width deg None deglen lambda lower upper) = false →
  ∃ m', filter uplo m start width deg None deglen lambda lower upper
        = Val (m', width * deg).
Proof.
  intros Hvalid Hexit.
  destruct (filter_run_returns uplo m start width deg None deglen lambda lower upper
              Hvalid Hexit) as (fr & _ & Hret & [[Hz ->]|[_ (frd & Hdone & ->)]]).
  - simpl in Hz. subst deg. eexists. rewrite Hret. simpl. by rewrite Z.mul_0_r.
  - eexists. rewrite Hret. simpl. by rewrite (done_total_null _ _ Hdone).
Qed.

(** ** The frame of V and W *)

Lemma bind_Val_inv {X Y} (r : Res X) (k : X → Res Y) y :
  (r ≫= k) = Val y → ∃ x, r = Val x ∧ k x = Val y.
Proof. destruct r as [x| | |]; try done. intros Hk. by exists x. Qed.

Lemma take_views_inv line N s w fr vv vw fr' :
  take_views line N s w fr = Val (vv, vw, fr') →
  fr' = add_view (line + 1) s w (add_view line s w fr).
Proof.
  unfold take_views. destruct (View (V fr) 0 s N w); [|done].
  destruct (View _ 0 s N w); [|done]. by intros [= _ _ <-].
Qed.

(** Whatever the frame, a deflation that completes adds to [start] what
    it takes from [width]. *)
Lemma deflate_keeps_sum N degrees deglen i fr fr' :
  deflate N degrees deglen i fr = Val fr' →
  start fr' + width fr' = start fr + width fr.
Proof.
  unfold deflate. destruct degrees as [ds|]; [|by intros [= <-]].
  intros H.
  apply bind_Val_inv in H as (j' & _ & H).
  apply bind_Val_inv in H as (lv & Hlv & H).
  apply bind_Val_inv in H as (width' & Hw & H).
  apply bind_Val_inv in H as (fr1 & Hcopy & H).
  apply bind_Val_inv in H as (start' & Hs & [= <-]).
  apply int_val_inv in Hw as [-> _]. apply int_val_inv in Hs as [-> _].
  assert (Hfr1 : start fr1 = start fr ∧ width fr1 = width fr - lv).
  { destruct (_ && _).
    - apply bind_Val_inv in Hcopy as ([[vv vw] fr2] & Hviews & [= <-]).
      apply take_views_inv in Hviews as ->. done.
    - by injection Hcopy as <-. }
  destruct Hfr1 as [Hs1 Hw1]. cbn [set_start start width]. lia.
Qed.

(** C9: in a valid call that the scans do not end, [start + width] is on
    return what it was on entry; every view taken lies in the range
    [start, start+width) of the call, and the views of the active range
    (all but those of the copy at lines 206 and 207) end where that range
    ends; the columns of V and W outside the range are unchanged, and so
    are the widths; and a deflation adds to [start] what it takes from
    [width], in whatever frame it runs. *)
Theorem active_range_frame uplo m start0 width0 deg degrees deglen lambda lower upper :
  valid_call m start0 width0 deg degrees deglen →
  is_exit (filter uplo m start0 width0 deg degrees deglen lambda lower upper) = false →
  ∃ fr,
    filter_run SEARCH_NAN uplo m start0 width0 deg degrees deglen lambda lower upper = Val fr
    ∧ start fr + width fr = start0 + width0
    ∧ Forall (λ '(line, s, w),
                start0 ≤ s ∧ 0 ≤ w ∧ s + w ≤ start0 + width0
                ∧ (line ≠ 206 → line ≠ 207 → s + w = start0 + width0)) (views fr)
    ∧ Width (V fr) = Width (mV m) ∧ Width (W fr) = Width (mW m)
    ∧ (∀ c : nat, ¬ (start0 ≤ Z.of_nat c < start0 + width0) →
         Cols (V fr) !! c = Cols (mV m) !! c ∧ Cols (W fr) !! c = Cols (mW m) !! c)
    ∧ ∀ N i fr1 fr2, deflate N degrees deglen i fr1 = Val fr2 →
        start fr2 + width fr2 = start fr1 + width fr1.
Proof.
  intros Hvalid Hexit.
  destruct (filter_run_returns uplo m start0 width0 deg degrees deglen lambda lower upper
              Hvalid Hexit) as (fr & Hrun & _ & [[_ ->]|[_ (frd & Hdone & ->)]]);
    eexists; (split; [exact Hrun|]).
  - simpl. split_and!; try done. intros N i fr1 fr2. apply deflate_keeps_sum.
  - destruct Hdone as [dA dHV dHW dWV dWW drange dtot dtotn dviews doutV doutW dcols].
    simpl. split_and!; try done.
    + intros c Hc. split; [by apply doutV|by apply doutW].
    + intros N i fr1 fr2. apply deflate_keeps_sum.
Qed.

(** ** The recurrence in the two buffers *)

Lemma recurrence_succ uplo M e sigma_scale n v w :
  recurrence uplo M e sigma_scale (S n) v w
  = let r := recurrence uplo M e sigma_scale n v w in
    let co := coefficients e sigma_scale (S n) in
    (r.2, hemm_column uplo co.1 M 0 r.2 co.2 0 (Height M) r.1).
Proof.
  cbn [recurrence]. destruct (recurrence uplo M e sigma_scale n v w) as [p c].
  by destruct (coefficients e sigma_scale (S n)) as [al be].
Qed.

(** The buffers hold the last two terms of the recurrence: the newest is
    in V after an even degree and in W after an odd one. *)
Lemma buffers_recurrence uplo M e sigma_scale n v w :
  buffers uplo M e sigma_scale n v w
  = let r := recurrence uplo M e sigma_scale n v w in
    if Nat.even n then (r.2, r.1) else (r.1, r.2).
Proof.
  induction n as [|n IH]; [done|].
  rewrite buffers_succ, recurrence_succ, IH. cbv zeta.
  rewrite Nat.even_succ, <- Nat.negb_even.
  destruct (Nat.even n); done.
Qed.

Lemma recurrence_length uplo M e sigma_scale h n v w :
  length v = h → length w = h →
  length (recurrence uplo M e sigma_scale n v w).1 = h
  ∧ length (recurrence uplo M e sigma_scale n v w).2 = h.
Proof.
  intros Hv Hw. induction n as [|n [IH1 IH2]]; [done|].
  rewrite recurrence_succ. cbv zeta. cbn [fst snd].
  by rewrite length_hemm_column.
Qed.

(** When the columns have the rows of the operator, the column of W of a
    vector that left with degree [d] is the term x_d of the recurrence. *)
Lemma deflated_recurrence uplo M e sigma_scale d v w :
  length v = Height M → length w = Height M →
  (deflated uplo M e sigma_scale d v w).2 = (recurrence uplo M e sigma_scale d v w).2.
Proof.
  intros Hv Hw. unfold deflated. rewrite buffers_recurrence. cbv zeta.
  destruct (recurrence_length uplo M e sigma_scale (Height M) d v w Hv Hw) as [H1 H2].
  destruct (Nat.even d); cbn [fst snd]; [|done].
  by apply copy_column_full.
Qed.

Lemma filter_column uplo m start width deg degrees deglen lambda lower upper
    (k : nat) v w :
  valid_call m start width deg degrees deglen →
  top_degree deg degrees ≠ 0 →
  is_exit (filter uplo m start width deg degrees deglen lambda lower upper) = false →
  Z.of_nat k < width →
  Cols (mV m) !! (Z.to_nat start + k)%nat = Some v →
  Cols (mW m) !! (Z.to_nat start + k)%nat = Some w →
  ∃ m' ret,
    filter uplo m start width deg degrees deglen lambda lower upper = Val (m', ret)
    ∧ Cols (mW m') !! (Z.to_nat start + k)%nat
      = Some (column_result uplo (mA m) lambda lower upper (degree_at deg degrees k) v w).
Proof.
  intros Hvalid Hnz Hexit Hk Hv Hw.
  destruct (filter_run_returns uplo m start width deg degrees deglen lambda lower upper
              Hvalid Hexit) as (fr & _ & Hret & [[Hz _]|[_ (frd & Hdone & ->)]]); [done|].
  eexists _, _. split; [exact Hret|]. cbn [mem_of mW set_A W].
  destruct Hvalid as (Hs & _).
  destruct (done_cols _ _ Hdone _ v w Hv Hw) as [_ HW]. rewrite HW. f_equal.
  rewrite result_at_inside by (cbn [call_of c_start c_width]; lia).
  unfold column_result. cbn [call_of c_start c_width c_uplo c_A c_e c_sigma_scale c_degmax].
  do 2 f_equal. unfold degree_at, schedule. cbn [call_of c_degrees].
  replace (Z.to_nat (Z.of_nat (Z.to_nat start + k) - start)) with k by lia.
  destruct degrees as [ds|]; [done|]. cbn [default]. by rewrite lookup_nil.
Qed.

(** ** The first rows of a column and the rows below *)

Lemma hemm_column_row uplo alpha M b beta h c (r : nat) :
  (h ≤ r)%nat → hemm_column uplo alpha M 0 b beta 0 h c !! r = c !! r.
Proof.
  intros Hr. unfold hemm_column. rewrite list_lookup_imap.
  destruct (c !! r) as [x|]; [|done]. simpl. unfold in_rows.
  destruct (Nat.ltb_spec r (0 + h)); [lia|]. by rewrite andb_false_r.
Qed.

Lemma copy_column_row (src dst : list F) h (r : nat) :
  (h ≤ r)%nat → copy_column 0 src 0 h dst !! r = dst !! r.
Proof.
  intros Hr. unfold copy_column. rewrite list_lookup_imap.
  destruct (dst !! r) as [x|]; [|done]. simpl. unfold in_rows.
  destruct (Nat.ltb_spec r (0 + h)); [lia|]. by rewrite andb_false_r.
Qed.

Lemma buffers_row uplo M e sigma_scale n v w (r : nat) :
  (Height M ≤ r)%nat →
  (buffers uplo M e sigma_scale n v w).1 !! r = v !! r
  ∧ (buffers uplo M e sigma_scale n v w).2 !! r = w !! r.
Proof.
  intros Hr. induction n as [|n [IH1 IH2]]; [done|].
  rewrite buffers_succ. cbv zeta.
  destruct (Nat.even (S n)); cbn [fst snd]; by rewrite ?hemm_column_row.
Qed.

Lemma herm_row_times_take uplo M (r : nat) (b : list F) :
  herm_row_times uplo M r (take (Height M) b) = herm_row_times uplo M r b.
Proof.
  unfold herm_row_times.
  assert (Hgen : ∀ l acc, (∀ k, k ∈ l → (k < Height M)%nat) →
    foldl (λ acc k, fadd acc (fmul (herm_entry uplo M r k)
                                (default f_zero (take (Height M) b !! k)))) acc l
    = foldl (λ acc k, fadd acc (fmul (herm_entry uplo M r k)
                                  (default f_zero (b !! k)))) acc l).
  { induction l as [|k l IH]; intros acc Hl; [done|]. cbn [foldl].
    rewrite lookup_take_lt by (apply Hl; left).
    apply IH. intros k' Hk'. apply Hl. by right. }
  apply Hgen. intros k Hk. apply elem_of_seq in Hk. lia.
Qed.

Lemma hemm_column_take uplo alpha M (b : list F) beta (c : list F) :
  take (Height M) (hemm_column uplo alpha M 0 b beta 0 (Height M) c)
  = hemm_column uplo alpha M 0 (take (Height M) b) beta 0 (Height M) (take (Height M) c).
Proof.
  unfold hemm_column. apply list_eq. intros r.
  rewrite list_lookup_imap. cbn [drop].
  destruct (decide (r < Height M)%nat) as [Hr|Hr].
  - rewrite !lookup_take_lt, list_lookup_imap by done.
    rewrite ?(lookup_take_lt c) by done.
    change (drop 0 (take (Height M) b)) with (take (Height M) b).
    by rewrite herm_row_times_take.
  - rewrite !lookup_take_ge by lia. done.
Qed.

Lemma copy_column_take (src dst : list F) h :
  take h (copy_column 0 src 0 h dst) = copy_column 0 (take h src) 0 h (take h dst).
Proof.
  unfold copy_column. apply list_eq. intros r. rewrite list_lookup_imap.
  destruct (decide (r < h)%nat) as [Hr|Hr].
  - rewrite !lookup_take_lt, list_lookup_imap by done.
    rewrite (lookup_take_lt dst) by done.
    destruct (dst !! r) as [x|]; simpl; [|done].
    destruct (in_rows 0 h r); [|done].
    rewrite lookup_take_lt by lia. done.
  - rewrite !lookup_take_ge by lia. done.
Qed.

Lemma buffers_take uplo M e sigma_scale n v w :
  buffers uplo M e sigma_scale n (take (Height M) v) (take (Height M) w)
  = (take (Height M) (buffers uplo M e sigma_scale n v w).1,
     take (Height M) (buffers uplo M e sigma_scale n v w).2).
Proof.
  induction n as [|n IH]; [done|].
  rewrite !buffers_succ, IH. cbv zeta. cbn [fst snd].
  destruct (Nat.even (S n)); cbn [fst snd]; by rewrite hemm_column_take.
Qed.

(** The first rows of the column of W of a vector that left with degree
    [d] are the term x_d of the recurrence on the first rows of the two
    columns; the other rows are those of the column of W. *)
Lemma deflated_rows uplo M e sigma_scale d v w :
  (Height M ≤ length v)%nat → (Height M ≤ length w)%nat →
  take (Height M) (deflated uplo M e sigma_scale d v w).2
  = (recurrence uplo M e sigma_scale d (take (Height M) v) (take (Height M) w)).2
  ∧ drop (Height M) (deflated uplo M e sigma_scale d v w).2 = drop (Height M) w.
Proof.
  intros Hv Hw. split.
  - rewrite <- (deflated_recurrence uplo M e sigma_scale d) by (rewrite length_take; lia).
    unfold deflated. rewrite buffers_take.
    destruct (buffers uplo M e sigma_scale d v w) as [bv bw]. cbn [fst snd].
    destruct (Nat.even d); cbn [snd]; [|done]. apply copy_column_take.
  - apply list_eq. intros r. rewrite !lookup_drop.
    unfold deflated.
    destruct (buffers_row uplo M e sigma_scale d v w (Height M + r)) as [_ H2]; [lia|].
    destruct (buffers uplo M e sigma_scale d v w) as [bv bw]. cbn [fst snd] in *.
    destruct (Nat.even d); cbn [snd]; [|done].
    by rewrite copy_column_row by lia.
Qed.

Lemma spec_degree_at m start0 width0 deg degrees deglen k :
  valid_call m start0 width0 deg degrees deglen →
  schedule_within deg degrees →
  spec_degree deg degrees k = degree_at deg degrees k.
Proof.
  intros (_ & _ & _ & _ & _ & _ & _ & Hdeg & _) Hin.
  unfold spec_degree, degree_at, schedule_within in *.
  destruct degrees as [ds|]; [|done]. simpl in *.
  rewrite Forall_lookup in Hin.
  destruct (ds !! k) as [d|] eqn:Hd; simpl.
  - pose proof (Hin _ _ Hd). f_equal. lia.
  - f_equal. destruct (last ds) as [dl|] eqn:Hl; simpl.
    + rewrite last_lookup in Hl.
      pose proof (Hin _ _ Hl). by destruct (Z.geb_spec deg dl); [|lia].
    + by destruct (Z.geb_spec deg 0); [|lia].
Qed.

Lemma valid_single m start width deg degrees deglen (k : nat) d :
  valid_call m start width deg degrees deglen →
  Z.of_nat k < width → 0 ≤ d < INT_MAX →
  valid_call m (start + Z.of_nat k) 1 d None 0.
Proof.
  intros (Hs & Hw & HWV & HWW & Hint & HHV & HHW & Hdeg & Hsch & Htop & Htot) Hk Hd.
  unfold valid_call. cbn [top_degree schedule_ok]. repeat split; lia.
Qed.

(** ** The schedule 1, 2, 3 against three single calls *)

(** C1: for three vectors, the call with the schedule [1; 2; 3] and
    [deg = 3] leaves in each of the three columns of W what the call
    without schedule on that single column leaves there, with [deg] 1, 2
    and 3; the parameters are such that no call is ended by a scan. *)
Theorem schedule_123_as_single_calls uplo m start lambda lower upper :
  valid_call m start 3 3 (Some [1; 2; 3]) 3 →
  is_exit (filter uplo m start 3 3 (Some [1; 2; 3]) 3 lambda lower upper) = false →
  is_exit (filter uplo m start 1 1 None 0 lambda lower upper) = false →
  is_exit (filter uplo m (start + 1) 1 2 None 0 lambda lower upper) = false →
  is_exit (filter uplo m (start + 2) 1 3 None 0 lambda lower upper) = false →
  ∃ mb rb m1 r1 m2 r2 m3 r3,
    filter uplo m start 3 3 (Some [1; 2; 3]) 3 lambda lower upper = Val (mb, rb)
    ∧ filter uplo m start 1 1 None 0 lambda lower upper = Val (m1, r1)
    ∧ filter uplo m (start + 1) 1 2 None 0 lambda lower upper = Val (m2, r2)
    ∧ filter uplo m (start + 2) 1 3 None 0 lambda lower upper = Val (m3, r3)
    ∧ Cols (mW mb) !! Z.to_nat start = Cols (mW m1) !! Z.to_nat start
    ∧ Cols (mW mb) !! Z.to_nat (start + 1) = Cols (mW m2) !! Z.to_nat (start + 1)
    ∧ Cols (mW mb) !! Z.to_nat (start + 2) = Cols (mW m3) !! Z.to_nat (start + 2).
Proof.
  intros Hvalid Hb H1 H2 H3.
  pose proof Hvalid as (Hs & Hw & HWV & HWW & Hint & _).
  destruct (filter_run_returns uplo m start 3 3 (Some [1; 2; 3]) 3 lambda lower upper
              Hvalid Hb) as (frb & _ & Hretb & _).
  set (mb := mem_of frb) in *. set (rb := total_vcts_filtered frb) in *.
  assert (Hcol : ∀ (k : nat) s, Z.of_nat k < 3 → s = start + Z.of_nat k →
    is_exit (filter uplo m s 1 (Z.of_nat (S k)) None 0 lambda lower upper) = false →
    ∃ mk rk, filter uplo m s 1 (Z.of_nat (S k)) None 0 lambda lower upper = Val (mk, rk)
             ∧ Cols (mW mb) !! Z.to_nat s = Cols (mW mk) !! Z.to_nat s).
  { intros k s Hk -> Hexit.
    destruct (lookup_lt_is_Some_2 (Cols (mV m)) (Z.to_nat start + k)) as [v Hv];
      [unfold Width in *; lia|].
    destruct (lookup_lt_is_Some_2 (Cols (mW m)) (Z.to_nat start + k)) as [w Hw'];
      [unfold Width in *; lia|].
    destruct (filter_column uplo m start 3 3 (Some [1; 2; 3]) 3 lambda lower upper
                k v w Hvalid ltac:(done) Hb Hk Hv Hw') as (mb' & rb' & Hretb' & Hcolb).
    rewrite Hretb in Hretb'. injection Hretb' as <- <-.
    assert (Hvk : valid_call m (start + Z.of_nat k) 1 (Z.of_nat (S k)) None 0).
    { apply (valid_single m start 3 3 (Some [1; 2; 3]) 3); try done.
      unfold INT_MAX. lia. }
    replace (Z.to_nat start + k)%nat with (Z.to_nat (start + Z.of_nat k) + 0)%nat
      in Hv, Hw', Hcolb by lia.
    destruct (filter_column uplo m (start + Z.of_nat k) 1 (Z.of_nat (S k)) None 0
                lambda lower upper 0 v w Hvk ltac:(simpl; lia) Hexit ltac:(lia) Hv Hw')
      as (mk & rk & Hretk & Hcolk).
    exists mk, rk. split; [done|].
    rewrite Nat.add_0_r in Hcolb, Hcolk. rewrite Hcolb, Hcolk. do 2 f_equal.
    unfold degree_at. rewrite Nat2Z.id.
    destruct k as [|[|[|k]]]; try done. lia. }
  destruct (Hcol 0%nat start) as (m1 & r1 & Hr1 & Hc1); [lia|lia|done|].
  destruct (Hcol 1%nat (start + 1)) as (m2 & r2 & Hr2 & Hc2); [lia|lia|done|].
  destruct (Hcol 2%nat (start + 2)) as (m3 & r3 & Hr3 & Hc3); [lia|lia|done|].
  by exists mb, rb, m1, r1, m2, r2, m3, r3.
Qed.

(** ** The scans *)

Lemma bind_no_exit {X Y} (r : Res X) (k : X → Res Y) :
  is_exit r = false → (∀ x, is_exit (k x) = false) → is_exit (r ≫= k) = false.
Proof. intros Hr Hk. destruct r; try done. apply Hk. Qed.

Lemma int_val_no_exit z : is_exit (int_val z) = false.
Proof. unfold int_val. by destruct (int_ok z). Qed.

Lemma read_no_exit ds k : is_exit (read ds k) = false.
Proof. unfold read. by repeat case_match. Qed.

Lemma take_views_no_exit line N s w fr : is_exit (take_views line N s w fr) = false.
Proof. unfold take_views. by repeat case_match. Qed.

Lemma skip_degree_no_exit ds deglen i : ∀ n jj,
  is_exit (skip_degree n ds deglen i jj) = false.
Proof.
  induction n as [|n IH]; intros jj; [done|]. cbn [skip_degree].
  destruct (jj <? deglen); [|done].
  apply bind_no_exit; [apply read_no_exit|]. intros d.
  destruct (d =? i); [|done].
  apply bind_no_exit; [apply int_val_no_exit|]. intros j'. apply IH.
Qed.

Lemma multiply_no_exit uplo N e sigma_scale i fr :
  is_exit (multiply uplo N e sigma_scale i fr) = false.
Proof.
  unfold multiply. apply bind_no_exit; [apply take_views_no_exit|].
  intros [[V_view W_view] fr1].
  apply bind_no_exit; [apply int_val_no_exit|]. done.
Qed.

Lemma deflate_no_exit N degrees deglen i fr :
  is_exit (deflate N degrees deglen i fr) = false.
Proof.
  unfold deflate. destruct degrees as [ds|]; [|done].
  apply bind_no_exit; [apply skip_degree_no_exit|]. intros j'.
  apply bind_no_exit; [apply int_val_no_exit|]. intros lv.
  apply bind_no_exit; [apply int_val_no_exit|]. intros width'.
  apply bind_no_exit.
  - destruct (_ && _); [|done].
    apply bind_no_exit; [apply take_views_no_exit|]. by intros [[V_view W_view] fr1].
  - intros fr1. apply bind_no_exit; [apply int_val_no_exit|]. done.
Qed.

Lemma for_loop_no_exit uplo N e sigma_scale degrees deglen : ∀ n i fr,
  is_exit (for_loop uplo N e sigma_scale degrees deglen n i fr) = false.
Proof.
  induction n as [|n IH]; intros i fr; [done|]. rewrite for_loop_succ.
  apply bind_no_exit.
  - unfold iteration. apply bind_no_exit; [apply multiply_no_exit|].
    intros fr1. apply deflate_no_exit.
  - intros fr1. apply bind_no_exit; [apply int_val_no_exit|]. intros i'. apply IH.
Qed.

Lemma final_copy_no_exit N degmax fr : is_exit (final_copy N degmax fr) = false.
Proof.
  unfold final_copy. destruct (_ =? _); [|done].
  apply bind_no_exit; [apply take_views_no_exit|]. by intros [[V_view W_view] fr1].
Qed.

Lemma first_step_no_exit uplo N e sigma_scale degrees deglen fr :
  is_exit (first_step None uplo N e sigma_scale degrees deglen fr) = false.
Proof.
  unfold first_step. apply bind_no_exit; [apply int_val_no_exit|]. intros sw.
  destruct (negb _); [done|]. destruct (negb _); [done|].
  apply bind_no_exit; [apply take_views_no_exit|]. intros [[V_view W_view] fr1].
  cbn [ifdef andb].
  apply bind_no_exit; [apply int_val_no_exit|]. intros total.
  destruct degrees as [ds|]; [|done].
  apply bind_no_exit; [apply skip_degree_no_exit|]. intros j'.
  apply bind_no_exit; [apply int_val_no_exit|]. intros width'.
  apply bind_no_exit; [apply int_val_no_exit|]. done.
Qed.

(** Compiled without the macro, the routine never calls [exit]. *)
Lemma filter_run_no_exit uplo m start width deg degrees deglen lambda lower upper :
  is_exit (filter_run None uplo m start width deg degrees deglen lambda lower upper)
  = false.
Proof.
  rewrite filter_run_unfold. cbv zeta. apply bind_no_exit.
  - unfold degmax_of. destruct degrees as [ds|]; [|done].
    apply bind_no_exit; [apply int_val_no_exit|]. intros k.
    apply bind_no_exit; [apply read_no_exit|]. done.
  - intros degmax. destruct (degmax =? 0); [done|].
    apply bind_no_exit; [apply first_step_no_exit|]. intros fr1.
    apply bind_no_exit; [apply for_loop_no_exit|]. intros fr2.
    apply bind_no_exit; [apply final_copy_no_exit|]. done.
Qed.

(** C7, amended: the macro is defined (line 17), so the scans are
    compiled in.  In a valid call with the maximum degree zero [filter]
    returns before any scan.  In a valid call with another maximum
    degree it scans V, W and A once the diagonal is shifted and the
    views are taken: when a norm is NaN there the job ends with the
    lines of that scan as output and the memory of that point; when the
    first scan is clean it multiplies and scans again, and when a norm
    is NaN then the job ends after the multiply, with the line of alpha,
    start and width added; when both scans are clean the call is not
    ended.  Compiled without the macro the routine never ends the job.
    At both scans the operator is the shifted one and V is as on entry;
    at the first W is as on entry too. *)
Theorem nan_scan_compiled_in uplo m start0 width0 deg degrees deglen lambda lower upper :
  valid_call m start0 width0 deg degrees deglen →
  let cl := call_of uplo m start0 width0 deg degrees deglen lambda lower upper in
  let scan1 := nan_scan 108 113 118 (scanned_frame cl) in
  let scan2 := nan_scan 137 142 147 (first_frame cl) in
  ifdef SEARCH_NAN = true
  ∧ (top_degree deg degrees = 0 →
     filter uplo m start0 width0 deg degrees deglen lambda lower upper = Val (m, 0))
  ∧ (top_degree deg degrees ≠ 0 →
     (scan1 ≠ [] →
      filter uplo m start0 width0 deg degrees deglen lambda lower upper
      = Exits (mem_of (scanned_frame cl)) scan1)
     ∧ (scan1 = [] → scan2 ≠ [] →
        filter uplo m start0 width0 deg degrees deglen lambda lower upper
        = Exits (mem_of (first_frame cl))
            (scan2 ++ [AlphaStartWidth (first_alpha cl) start0 width0]))
     ∧ (scan1 = [] → scan2 = [] →
        is_exit (filter uplo m start0 width0 deg degrees deglen lambda lower upper)
        = false))
  ∧ is_exit (filter_run None uplo m start0 width0 deg degrees deglen lambda lower upper)
    = false
  ∧ mem_of (scanned_frame cl)
    = mkMem (ShiftDiagonal (mA m) (ropp (rdiv (radd upper lower) r_two))) (mV m) (mW m)
  ∧ mA (mem_of (first_frame cl))
    = ShiftDiagonal (mA m) (ropp (rdiv (radd upper lower) r_two))
  ∧ mV (mem_of (first_frame cl)) = mV m.
Proof.
  intros Hvalid cl scan1 scan2.
  split; [done|]. split; [|split; [|split; [apply filter_run_no_exit|done]]].
  - intros Hz. unfold filter.
    rewrite filter_run_unfold, (degmax_of_top m start0 width0), bind_Val, Hz by done.
    cbn [Z.eqb]. rewrite bind_Val. cbn [total_vcts_filtered]. by rewrite mem_of_initial.
  - intros Hnz.
    destruct (filter_run_done SEARCH_NAN uplo m start0 width0 deg degrees deglen
                lambda lower upper Hvalid Hnz) as (frd & Hdone & Hrun).
    fold cl in Hrun. unfold filter. rewrite Hrun. unfold first_step_outcome.
    fold scan1 scan2. cbn [ifdef SEARCH_NAN andb].
    split; [|split].
    + intros H1. by rewrite bool_decide_eq_false_2.
    + intros H1 H2. by rewrite bool_decide_eq_true_2, bool_decide_eq_false_2.
    + intros H1 H2. by rewrite !bool_decide_eq_true_2.
Qed.

(** ** What one pass of the loop does to the counters *)

Lemma skip_degree_inv ds deglen i : ∀ n jj j',
  skip_degree n ds deglen i jj = Val j' →
  jj ≤ j' ∧ ∀ k, jj ≤ k < j' → ds !! Z.to_nat k = Some i.
Proof.
  induction n as [|n IH]; intros jj j' H; cbn [skip_degree] in H.
  - injection H as <-. split; [lia|]. intros k Hk. lia.
  - destruct (Z.ltb_spec jj deglen); [|injection H as <-; split; [lia|intros; lia]].
    apply bind_Val_inv in H as (d & Hd & H).
    destruct (Z.eqb_spec d i) as [->|]; [|injection H as <-; split; [lia|intros; lia]].
    apply bind_Val_inv in H as (j1 & Hj1 & H).
    apply int_val_inv in Hj1 as [-> _].
    apply IH in H as [Hle Hall]. split; [lia|].
    intros k Hk. destruct (decide (k = jj)) as [->|]; [|apply Hall; lia].
    unfold read in Hd. destruct (jj <? 0); [done|].
    destruct (ds !! Z.to_nat jj); [|done]. by injection Hd as ->.
Qed.

Lemma multiply_fields uplo N e sigma_scale i fr fr' :
  multiply uplo N e sigma_scale i fr = Val fr' →
  A fr' = A fr ∧ start fr' = start fr ∧ width fr' = width fr ∧ j fr' = j fr
  ∧ total_vcts_filtered fr' = total_vcts_filtered fr + width fr.
Proof.
  unfold multiply. intros H.
  apply bind_Val_inv in H as ([[vv vw] fr1] & Hviews & H).
  apply take_views_inv in Hviews as ->.
  apply bind_Val_inv in H as (t & Ht & [= <-]).
  apply int_val_inv in Ht as [-> _].
  destruct (Z.rem i 2 =? 0); done.
Qed.

Lemma deflate_fields N degrees deglen i fr fr' :
  deflate N degrees deglen i fr = Val fr' →
  A fr' = A fr ∧ V fr' = V fr
  ∧ total_vcts_filtered fr' = total_vcts_filtered fr
  ∧ j fr ≤ j fr'
  ∧ start fr' = start fr + (j fr' - j fr)
  ∧ width fr' = width fr - (j fr' - j fr).
Proof.
  unfold deflate. destruct degrees as [ds|].
  2:{ intros [= <-]. repeat split; lia. }
  intros H.
  apply bind_Val_inv in H as (j' & Hj' & H).
  apply skip_degree_inv in Hj' as [Hle _].
  apply bind_Val_inv in H as (lv & Hlv & H).
  apply bind_Val_inv in H as (width' & Hw & H).
  apply bind_Val_inv in H as (fr1 & Hcopy & H).
  apply bind_Val_inv in H as (start' & Hs & [= <-]).
  apply int_val_inv in Hlv as [-> _].
  apply int_val_inv in Hw as [-> _]. apply int_val_inv in Hs as [-> _].
  assert (Hfr1 : A fr1 = A fr ∧ V fr1 = V fr ∧ start fr1 = start fr
                 ∧ width fr1 = width fr - (j' - j fr) ∧ j fr1 = j'
                 ∧ total_vcts_filtered fr1 = total_vcts_filtered fr).
  { destruct (_ && _).
    - apply bind_Val_inv in Hcopy as ([[vv vw] fr2] & Hviews & [= <-]).
      apply take_views_inv in Hviews as ->. done.
    - by injection Hcopy as <-. }
  destruct Hfr1 as (HA & HV & Hs1 & Hw1 & Hj1 & Ht1).
  cbn [set_start A V start width j total_vcts_filtered]. rewrite Hj1.
  repeat split; try done; lia.
Qed.

Lemma iteration_fields uplo N e sigma_scale degrees deglen i fr fr' :
  iteration uplo N e sigma_scale degrees deglen i fr = Val fr' →
  A fr' = A fr
  ∧ total_vcts_filtered fr' = total_vcts_filtered fr + width fr
  ∧ j fr ≤ j fr'
  ∧ start fr' = start fr + (j fr' - j fr)
  ∧ width fr' = width fr - (j fr' - j fr).
Proof.
  unfold iteration. intros H.
  apply bind_Val_inv in H as (fr1 & Hm & Hd).
  apply multiply_fields in Hm as (HA & Hs & Hw & Hj & Ht).
  apply deflate_fields in Hd as (HA' & _ & Ht' & Hj' & Hs' & Hw').
  rewrite HA', HA, Ht', Ht, Hs', Hw', Hs, Hw, Hj. rewrite Hj in Hj'. done.
Qed.

(** X3: a pass of the loop that completes never widens the active range:
    it leaves the operator alone, adds the width it was entered with to
    the cost, and moves [start] up and [width] down by the number of
    vectors that left, which is not negative. *)
Theorem pass_of_the_loop uplo N e sigma_scale degrees deglen i fr fr' :
  iteration uplo N e sigma_scale degrees deglen i fr = Val fr' →
  A fr' = A fr
  ∧ total_vcts_filtered fr' = total_vcts_filtered fr + width fr
  ∧ width fr' ≤ width fr ∧ start fr ≤ start fr'
  ∧ width fr - width fr' = j fr' - j fr
  ∧ start fr' - start fr = j fr' - j fr.
Proof.
  intros H. apply iteration_fields in H as (HA & Ht & Hj & Hs & Hw).
  split_and!; try done; lia.
Qed.

(** ** Outcomes that are not a LogicError *)

Lemma bind_no_throw {X Y} (r : Res X) (k : X → Res Y) :
  is_throw r = false → (∀ x, is_throw (k x) = false) → is_throw (r ≫= k) = false.
Proof. intros Hr Hk. destruct r; try done. apply Hk. Qed.

Lemma int_val_no_throw z : is_throw (int_val z) = false.
Proof. unfold int_val. by destruct (int_ok z). Qed.

Lemma read_no_throw ds k : is_throw (read ds k) = false.
Proof. unfold read. by repeat case_match. Qed.

(** ** Arguments that the routine does not check *)

(** X10: the schedule is read at [deglen - 1] before anything else is
    done, so a [deglen] above the number of entries of the array reads
    past its end. *)
Theorem schedule_read_past_end uplo m start0 width0 deg ds deglen lambda lower upper :
  Z.of_nat (length ds) < deglen →
  filter uplo m start0 width0 deg (Some ds) deglen lambda lower upper = Undef.
Proof.
  intros Hlen. unfold filter. rewrite filter_run_unfold. cbv zeta.
  unfold degmax_of, int_sub, int_val.
  destruct (int_ok (deglen - 1)); [|done]. rewrite bind_Val.
  unfold read. destruct (Z.ltb_spec (deglen - 1) 0); [done|].
  rewrite (proj2 (lookup_ge_None ds (Z.to_nat (deglen - 1)))) by lia. done.
Qed.

(** X11: the assertions of lines 95 and 96 test the columns up to
    [start + width] and not [start] itself: with a negative [start] and
    [start + width] in range both pass, and the view of line 98 is taken
    outside V. *)
Theorem negative_start_passes_assertions uplo m start0 width0 deg degrees deglen
    lambda lower upper :
  let N := Z.of_nat (Height (mA m)) in
  start0 < 0 →
  AssertValidSubmatrix (mV m) 0 0 N (start0 + width0) = true →
  AssertValidSubmatrix (mW m) 0 0 N (start0 + width0) = true →
  degmax_of deg degrees deglen ≠ Val 0 →
  filter uplo m start0 width0 deg degrees deglen lambda lower upper = Undef.
Proof.
  intros N Hneg HV HW Hdm. unfold filter. rewrite filter_run_unfold. cbv zeta.
  destruct (degmax_of deg degrees deglen) as [degmax|mx|mx out|] eqn:Hd; try done.
  - rewrite bind_Val. destruct (Z.eqb_spec degmax 0) as [->|_]; [done|].
    unfold first_step, int_add, int_val.
    destruct (int_ok _); [|done]. rewrite bind_Val.
    unfold c_N, call_of, entry_frame. cbn [c_A c_V c_W c_start c_width V W start width A].
    rewrite Height_ShiftDiagonal. fold N. rewrite HV, HW. cbn [negb].
    unfold take_views, View, AssertValidSubmatrix. cbn [V].
    destruct (Z.ltb_spec start0 0); [|lia].
    by rewrite orb_true_r.
  - exfalso. assert (Hno : is_throw (Throws (X:=Z) mx) = false); [|done].
    rewrite <- Hd. unfold degmax_of. destruct degrees as [ds|]; [|done].
    apply bind_no_throw; [apply int_val_no_throw|]. intros k.
    apply bind_no_throw; [apply read_no_throw|]. done.
  - exfalso. assert (Hno : is_exit (Exits (X:=Z) mx out) = false); [|done].
    rewrite <- Hd. unfold degmax_of. destruct degrees as [ds|]; [|done].
    apply bind_no_exit; [apply int_val_no_exit|]. intros k.
    apply bind_no_exit; [apply read_no_exit|]. done.
Qed.

(** X12: a negative [deg] is not refused.  Only [degmax == 0] returns
    early, the loop from 2 does not run, and the parity test of line 217
    sees an odd number: without a schedule a negative odd [deg] is the
    call of degree 1. *)
Theorem negative_odd_degree_is_degree_one uplo m start0 width0 deg deglen
    lambda lower upper :
  deg < 0 → Z.rem deg 2 ≠ 0 →
  filter uplo m start0 width0 deg None deglen lambda lower upper
  = filter uplo m start0 width0 1 None deglen lambda lower upper.
Proof.
  intros Hneg Hodd. unfold filter. f_equal.
  rewrite !filter_run_unfold. cbv zeta. cbn [degmax_of]. rewrite !bind_Val.
  destruct (Z.eqb_spec deg 0); [lia|]. cbn [Z.eqb].
  replace (Z.to_nat (deg - 1)) with (Z.to_nat (1 - 1)) by lia.
  unfold final_copy. destruct (Z.eqb_spec (Z.rem deg 2) 0); [done|]. done.
Qed.

(** ** The stages of a call that returns *)

Lemma first_step_fields macro uplo N e sigma_scale degrees deglen fr fr' :
  first_step macro uplo N e sigma_scale degrees deglen fr = Val fr' →
  A fr' = A fr ∧ V fr' = V fr
  ∧ total_vcts_filtered fr' = total_vcts_filtered fr + width fr.
Proof.
  unfold first_step. intros H.
  apply bind_Val_inv in H as (sw & _ & H).
  destruct (negb _); [done|]. destruct (negb _); [done|].
  apply bind_Val_inv in H as ([[vv vw] fr1] & Hviews & H).
  apply take_views_inv in Hviews as ->.
  destruct (_ && _); [done|]. destruct (_ && _); [done|].
  apply bind_Val_inv in H as (t & Ht & H).
  apply int_val_inv in Ht as [-> _].
  destruct degrees as [ds|]; [|by injection H as <-].
  apply bind_Val_inv in H as (j' & _ & H).
  apply bind_Val_inv in H as (width' & _ & H).
  apply bind_Val_inv in H as (start' & _ & [= <-]). done.
Qed.

Lemma final_copy_fields N degmax fr fr' :
  final_copy N degmax fr = Val fr' →
  A fr' = A fr ∧ V fr' = V fr ∧ start fr' = start fr ∧ width fr' = width fr
  ∧ j fr' = j fr ∧ total_vcts_filtered fr' = total_vcts_filtered fr.
Proof.
  unfold final_copy. destruct (_ =? _); [|by intros [= <-]].
  intros H. apply bind_Val_inv in H as ([[vv vw] fr1] & Hviews & [= <-]).
  apply take_views_inv in Hviews as ->. done.
Qed.

Lemma Inv_top_j cl n fr :
  good_call cl → Inv cl n fr → Z.of_nat n = c_degmax cl → j fr = schedule_len cl.
Proof.
  intros Hgc Hinv Hn.
  pose proof (inv_j cl n fr Hinv) as Hj. pose proof (gc_len cl Hgc) as Hlen.
  destruct (decide (j fr < schedule_len cl)) as [Hlt|]; [|lia].
  destruct (lookup_lt_is_Some_2 (schedule cl) (Z.to_nat (j fr))) as [dk Hdk]; [lia|].
  pose proof (gc_top cl Hgc _ _ Hdk).
  pose proof (inv_todo cl n fr Hinv (j fr) dk ltac:(lia) Hdk). lia.
Qed.

Lemma filter_run_trace macro uplo m start0 width0 deg degrees deglen lambda lower upper fr :
  valid_call m start0 width0 deg degrees deglen →
  top_degree deg degrees ≠ 0 →
  filter_run macro uplo m start0 width0 deg degrees deglen lambda lower upper = Val fr →
  let cl := call_of uplo m start0 width0 deg degrees deglen lambda lower upper in
  let n := Z.to_nat (top_degree deg degrees) in
  ∃ fr1 fr2 frd,
    first_step macro uplo (c_N cl) (c_e cl) (c_sigma_scale cl) degrees deglen
      (entry_frame cl) = Val fr1
    ∧ Inv cl 1 fr1
    ∧ for_loop uplo (c_N cl) (c_e cl) (c_sigma_scale cl) degrees deglen (n - 1) 2 fr1
      = Val fr2
    ∧ Inv cl n fr2
    ∧ final_copy (c_N cl) (top_degree deg degrees) fr2 = Val frd
    ∧ Done cl frd
    ∧ fr = set_A (mA m) frd.
Proof.
  intros Hvalid Hnz Hrun cl n.
  pose proof (good_call_of uplo m start0 width0 deg degrees deglen lambda lower upper
                Hvalid Hnz) as Hgc.
  fold cl in Hgc.
  rewrite filter_run_unfold, (degmax_of_top m start0 width0) in Hrun by done.
  fold cl in Hrun. rewrite bind_Val in Hrun.
  destruct (Z.eqb_spec (top_degree deg degrees) 0) as [|_]; [done|].
  destruct (first_step_inv macro cl Hgc) as (fr1 & Hinv1 & Hfirst).
  pose proof (gc_degmax cl Hgc) as Hdm. change (c_degmax cl) with (top_degree deg degrees) in Hdm.
  destruct (for_loop_inv cl (Z.to_nat (top_degree deg degrees - 1)) 1 fr1 Hgc Hinv1)
    as (fr2 & Hloop & Hinv2); [lia|change (c_degmax cl) with (top_degree deg degrees); lia|].
  change (Z.of_nat 2) with 2 in Hloop.
  replace (1 + Z.to_nat (top_degree deg degrees - 1))%nat with n in Hinv2 by (subst n; lia).
  replace (Z.to_nat (top_degree deg degrees - 1)) with (n - 1)%nat in Hloop, Hrun
    by (subst n; lia).
  destruct (final_copy_done cl n fr2 Hgc Hinv2) as (frd & Hcopy & Hdone).
  { change (c_degmax cl) with (top_degree deg degrees). subst n. lia. }
  change (c_degmax cl) with (top_degree deg degrees) in Hcopy.
  rewrite Hfirst in Hrun. unfold first_step_outcome in Hfirst, Hrun.
  destruct (_ && _); [done|]. destruct (_ && _); [done|].
  rewrite bind_Val, Hloop, bind_Val, Hcopy, bind_Val in Hrun.
  injection Hrun as <-.
  exists fr1, fr2, frd. split_and!; try done.
  rewrite (done_A cl frd Hdone). unfold cl at 1, call_of. cbn [c_A].
  by rewrite SetDiagonal_ShiftDiagonal.
Qed.

(** ** A valid call does not fail *)

(** X8: a valid call neither fails an assertion nor takes a view outside
    V or W nor overflows a counter: it returns, or it is ended by
    [exit(1)] at a scan. *)
Theorem valid_call_returns_or_exits uplo m start0 width0 deg degrees deglen
    lambda lower upper :
  valid_call m start0 width0 deg degrees deglen →
  (∃ m' ret,
     filter uplo m start0 width0 deg degrees deglen lambda lower upper = Val (m', ret))
  ∨ (∃ mm out,
       filter uplo m start0 width0 deg degrees deglen lambda lower upper = Exits mm out).
Proof.
  intros Hvalid.
  destruct (is_exit (filter uplo m start0 width0 deg degrees deglen lambda lower upper))
    eqn:Hexit.
  - right. destruct (filter _ _ _ _ _ _ _ _ _ _) as [x|mm|mm out|]; try done. eauto.
  - left.
    destruct (filter_run_returns uplo m start0 width0 deg degrees deglen lambda lower upper
                Hvalid Hexit) as (fr & _ & Hret & _).
    eauto.
Qed.

(** ** The cost metric with a schedule *)

Lemma sum_take_run ds i : ∀ (b a : nat),
  (a ≤ b ≤ length ds)%nat →
  (∀ k : nat, (a ≤ k < b)%nat → ds !! k = Some i) →
  foldr Z.add 0 (take b ds) = foldr Z.add 0 (take a ds) + Z.of_nat (b - a) * i.
Proof.
  induction b as [|b IH]; intros a Hab Hall.
  - replace a with 0%nat by lia. simpl. lia.
  - destruct (decide (a = S b)) as [->|Hne].
    + replace (S b - S b)%nat with 0%nat by lia. lia.
    + rewrite (take_S_r ds b i) by (apply Hall; lia).
      rewrite foldr_app. cbn [foldr].
      assert (Hfold : ∀ l x, foldr Z.add x l = foldr Z.add 0 l + x).
      { induction l as [|y l IHl]; intros x; simpl; [lia|]. rewrite IHl. lia. }
      rewrite Hfold, (IH a) by (lia || (intros; apply Hall; lia)).
      replace (S b - a)%nat with (S (b - a)) by lia. rewrite Nat2Z.inj_succ. lia.
Qed.

(** The cost once degree [n] is done. *)
Lemma iteration_cost cl n fr fr' :
  good_call cl → Inv cl n fr → Inv cl (S n) fr' →
  iteration (c_uplo cl) (c_N cl) (c_e cl) (c_sigma_scale cl)
    (c_degrees cl) (c_deglen cl) (Z.of_nat (S n)) fr = Val fr' →
  total_vcts_filtered fr
  = foldr Z.add 0 (take (Z.to_nat (j fr)) (schedule cl))
    + (c_width cl - j fr) * Z.of_nat n →
  total_vcts_filtered fr'
  = foldr Z.add 0 (take (Z.to_nat (j fr')) (schedule cl))
    + (c_width cl - j fr') * Z.of_nat (S n).
Proof.
  intros Hgc Hinv Hinv' Hrun Hcost.
  apply iteration_fields in Hrun as (_ & Ht & Hj & _ & _).
  pose proof (inv_j cl n fr Hinv) as Hj0. pose proof (inv_j cl _ fr' Hinv') as Hj1.
  pose proof (gc_len cl Hgc) as Hlen.
  rewrite Ht, Hcost, (inv_width cl n fr Hinv).
  rewrite (sum_take_run (schedule cl) (Z.of_nat (S n)) (Z.to_nat (j fr')) (Z.to_nat (j fr)))
    by first [lia
             |intros k Hk;
              destruct (lookup_lt_is_Some_2 (schedule cl) k) as [dk Hdk]; [lia|];
              pose proof (inv_todo cl n fr Hinv (Z.of_nat k) dk ltac:(lia)
                            ltac:(by rewrite Nat2Z.id));
              pose proof (inv_done cl _ fr' Hinv' (Z.of_nat k) dk ltac:(lia)
                            ltac:(by rewrite Nat2Z.id));
              rewrite Hdk; f_equal; lia].
  nia.
Qed.

Lemma for_loop_cost cl : ∀ count n fr fr',
  good_call cl → Inv cl n fr → (1 ≤ n)%nat → Z.of_nat (n + count) ≤ c_degmax cl →
  for_loop (c_uplo cl) (c_N cl) (c_e cl) (c_sigma_scale cl)
    (c_degrees cl) (c_deglen cl) count (Z.of_nat (S n)) fr = Val fr' →
  total_vcts_filtered fr
  = foldr Z.add 0 (take (Z.to_nat (j fr)) (schedule cl))
    + (c_width cl - j fr) * Z.of_nat n →
  total_vcts_filtered fr'
  = foldr Z.add 0 (take (Z.to_nat (j fr')) (schedule cl))
    + (c_width cl - j fr') * Z.of_nat (n + count).
Proof.
  induction count as [|count IH]; intros n fr fr' Hgc Hinv Hn Hdm Hrun Hcost.
  - injection Hrun as <-. by rewrite Nat.add_0_r.
  - assert (H0 : Z.of_nat (S n) ≤ c_degmax cl) by lia.
    destruct (iteration_inv cl n fr Hgc Hinv Hn H0) as (fr1 & Hit & Hinv1).
    rewrite for_loop_succ, Hit, bind_Val in Hrun.
    pose proof (gc_degmax cl Hgc) as Hd.
    rewrite int_add_succ, bind_Val in Hrun by lia.
    replace (n + S count)%nat with (S n + count)%nat by lia.
    apply (IH (S n) fr1); try done; try lia.
    by apply (iteration_cost cl n fr).
Qed.

Lemma valid_schedule_top m start0 width0 deg ds deglen :
  valid_call m start0 width0 deg (Some ds) deglen → 1 ≤ top_degree deg (Some ds).
Proof.
  intros (_ & _ & _ & _ & _ & _ & _ & Hdeg & Hsch & _).
  destruct Hsch as (Hlen & Hd1 & _ & Hpos & _).
  destruct (lookup_lt_is_Some_2 ds (Init.Nat.pred (length ds))) as [d Hd]; [lia|].
  assert (1 ≤ d).
  { rewrite forallb_forall in Hpos. apply Z.leb_le, Hpos.
    apply list_elem_of_In, list_elem_of_lookup. eauto. }
  unfold top_degree. rewrite last_lookup, Hd. simpl.
  destruct (Z.geb_spec deg d); lia.
Qed.

Lemma sum_from (f : nat → Z) l x :
  foldr (λ k acc, f k + acc) x l = foldr (λ k acc, f k + acc) 0 l + x.
Proof. induction l as [|k l IH]; simpl; [lia|]. rewrite IH. lia. Qed.

Lemma sum_constant (f : nat → Z) c : ∀ n a,
  (∀ k, (a ≤ k < a + n)%nat → f k = c) →
  foldr (λ k acc, f k + acc) 0 (seq a n) = Z.of_nat n * c.
Proof.
  induction n as [|n IH]; intros a Hf; [simpl; lia|].
  cbn [seq foldr]. rewrite (IH (S a)) by (intros; apply Hf; lia).
  rewrite (Hf a) by lia. lia.
Qed.

Lemma sum_of_entries top : ∀ ds,
  (∀ k d, ds !! k = Some d → 0 ≤ d) →
  foldr (λ k acc, Z.of_nat (Z.to_nat (default top (ds !! k))) + acc) 0
    (seq 0 (length ds))
  = foldr Z.add 0 ds.
Proof.
  induction ds as [|d ds IH]; intros Hpos; [done|].
  cbn [length seq foldr]. rewrite <- fmap_S_seq, foldr_fmap.
  cbn [lookup list_lookup default]. rewrite <- IH by (intros k d'; apply (Hpos (S k))).
  pose proof (Hpos 0%nat d eq_refl). unfold id. f_equal. lia.
Qed.

(** The closed form is the sum over the vectors of the range. *)
Lemma scheduled_cost_applied m start0 width0 deg degrees deglen :
  valid_call m start0 width0 deg degrees deglen →
  scheduled_cost width0 deg degrees = degrees_applied width0 deg degrees.
Proof.
  intros Hvalid.
  pose proof Hvalid as (_ & Hw & _ & _ & _ & _ & _ & Hdeg & Hsch & _).
  unfold scheduled_cost, degrees_applied. destruct degrees as [ds|].
  - pose proof (valid_schedule_top m start0 width0 deg ds deglen Hvalid) as Htop.
    destruct Hsch as (Hlen & Hd1 & Hdw & Hpos & _).
    change (default [] (Some ds)) with ds.
    replace (Z.to_nat width0) with (length ds + (Z.to_nat width0 - length ds))%nat by lia.
    rewrite seq_app, foldr_app, sum_from. f_equal.
    + unfold degree_at. symmetry. apply sum_of_entries. intros k d Hd.
      rewrite forallb_forall in Hpos.
      assert (1 ≤ d); [|lia]. apply Z.leb_le, Hpos.
      apply list_elem_of_In, list_elem_of_lookup. eauto.
    + rewrite (sum_constant _ (top_degree deg (Some ds))).
      * f_equal. lia.
      * intros k Hk. unfold degree_at.
        rewrite (proj2 (lookup_ge_None ds k)) by lia.
        change (default (top_degree deg (Some ds)) None) with (top_degree deg (Some ds)).
        lia.
  - cbn [default foldr length top_degree].
    rewrite (sum_constant _ deg) by (intros; unfold degree_at; lia). lia.
Qed.

(** X1: the value returned by a valid call that the scans do not end is
    the closed form of the cost: the sum of the degrees of the schedule
    plus the maximum degree for each vector of the range that the
    schedule does not cover; [width * deg] is the case without a
    schedule.  It is the sum, over the vectors of the range, of the
    degree that each one received. *)
Theorem cost_with_schedule uplo m start0 width0 deg degrees deglen lambda lower upper :
  valid_call m start0 width0 deg degrees deglen →
  is_exit (filter uplo m start0 width0 deg degrees deglen lambda lower upper) = false →
  (∃ m', filter uplo m start0 width0 deg degrees deglen lambda lower upper
         = Val (m', scheduled_cost width0 deg degrees))
  ∧ scheduled_cost width0 deg degrees = degrees_applied width0 deg degrees.
Proof.
  intros Hvalid Hexit.
  split; [|by apply (scheduled_cost_applied m start0 width0 deg degrees deglen)].
  destruct (filter_run_returns uplo m start0 width0 deg degrees deglen lambda lower upper
              Hvalid Hexit) as (fr & Hrun & Hret & Hcase).
  exists (mem_of fr). rewrite Hret. do 2 f_equal.
  set (cl := call_of uplo m start0 width0 deg degrees deglen lambda lower upper) in *.
  destruct (decide (top_degree deg degrees = 0)) as [Hz|Hnz].
  - destruct Hcase as [[_ ->]|[? _]]; [|done]. unfold scheduled_cost. rewrite Hz.
    destruct Hvalid as (_ & _ & _ & _ & _ & _ & _ & Hdeg & Hsch & _).
    destruct degrees as [ds|]; cbn [default total_vcts_filtered foldr length]; [|lia].
    destruct Hsch as (Hlen & Hd1 & _ & Hpos & _). exfalso.
    destruct (lookup_lt_is_Some_2 ds (Init.Nat.pred (length ds))) as [d Hd]; [lia|].
    assert (1 ≤ d).
    { rewrite forallb_forall in Hpos. apply Z.leb_le, Hpos.
      apply list_elem_of_In, list_elem_of_lookup. eauto. }
    unfold top_degree in Hz. rewrite last_lookup, Hd in Hz. simpl in Hz.
    destruct (Z.geb_spec deg d); lia.
  - pose proof (good_call_of uplo m start0 width0 deg degrees deglen lambda lower upper
                  Hvalid Hnz) as Hgc.
    fold cl in Hgc.
    destruct (filter_run_trace SEARCH_NAN uplo m start0 width0 deg degrees deglen
                lambda lower upper fr Hvalid Hnz Hrun)
      as (fr1 & fr2 & frd & Hfirst & Hinv1 & Hloop & Hinv2 & Hcopy & _ & ->).
    fold cl in Hfirst, Hinv1, Hloop, Hinv2, Hcopy.
    pose proof (gc_degmax cl Hgc) as Hdm.
    change (c_degmax cl) with (top_degree deg degrees) in Hdm.
    apply first_step_fields in Hfirst as (_ & _ & Ht1).
    apply final_copy_fields in Hcopy as (_ & _ & _ & _ & _ & Htd).
    change (total_vcts_filtered (set_A (mA m) frd)) with (total_vcts_filtered frd).
    rewrite Htd.
    assert (Hcost1 : total_vcts_filtered fr1
              = foldr Z.add 0 (take (Z.to_nat (j fr1)) (schedule cl))
                + (c_width cl - j fr1) * Z.of_nat 1).
    { rewrite Ht1. change (total_vcts_filtered (entry_frame cl)) with 0.
      change (width (entry_frame cl)) with (c_width cl).
      pose proof (inv_j cl 1 fr1 Hinv1) as Hj1. pose proof (gc_len cl Hgc) as Hlen.
      rewrite (sum_take_run (schedule cl) 1 (Z.to_nat (j fr1)) 0)
        by first [lia
                 |intros k Hk;
                  destruct (lookup_lt_is_Some_2 (schedule cl) k) as [dk Hdk]; [lia|];
                  pose proof (gc_pos cl Hgc k dk Hdk);
                  pose proof (inv_done cl _ fr1 Hinv1 (Z.of_nat k) dk ltac:(lia)
                                ltac:(by rewrite Nat2Z.id));
                  rewrite Hdk; f_equal; lia].
      rewrite take_0. simpl foldr. lia. }
    pose proof (for_loop_cost cl (Z.to_nat (top_degree deg degrees) - 1) 1 fr1 fr2
                  Hgc Hinv1 ltac:(lia)
                  ltac:(change (c_degmax cl) with (top_degree deg degrees); lia)
                  Hloop Hcost1) as Hcost2.
    rewrite Hcost2.
    rewrite (Inv_top_j cl _ fr2 Hgc Hinv2)
      by (change (c_degmax cl) with (top_degree deg degrees); lia).
    rewrite <- (gc_len cl Hgc), Nat2Z.id, firstn_all.
    unfold scheduled_cost. change (schedule cl) with (default [] degrees).
    f_equal. f_equal. lia.
Qed.

(** ** What is left in V *)

Lemma result_at_degree uplo m start0 width0 deg degrees deglen lambda lower upper
    (k : nat) v w :
  0 ≤ start0 → Z.of_nat k < width0 →
  let cl := call_of uplo m start0 width0 deg degrees deglen lambda lower upper in
  result_at cl (Z.to_nat start0 + k) v w
  = deflated uplo (c_A cl) (c_e cl) (c_sigma_scale cl) (degree_at deg degrees k) v w.
Proof.
  intros Hs Hk cl. subst cl.
  rewrite result_at_inside by (cbn [call_of c_start c_width]; lia).
  cbn [call_of c_start c_width c_uplo c_A c_e c_sigma_scale c_degmax].
  f_equal. unfold degree_at, schedule. cbn [call_of c_degrees].
  replace (Z.to_nat (Z.of_nat (Z.to_nat start0 + k) - start0)) with k by lia.
  destruct degrees as [ds|]; [done|]. cbn [default]. by rewrite lookup_nil.
Qed.

(** X4: V is scratch space.  After a valid call with a maximum degree
    other than zero that the scans do not end, the column of V at each
    position of the range holds the term of the recurrence of the last
    even degree up to the degree of that vector: x_d when d is even,
    x_(d-1) when it is odd. *)
Theorem V_holds_last_even_term uplo m start0 width0 deg degrees deglen
    lambda lower upper :
  valid_call m start0 width0 deg degrees deglen →
  top_degree deg degrees ≠ 0 →
  is_exit (filter uplo m start0 width0 deg degrees deglen lambda lower upper) = false →
  ∃ m' ret,
    filter uplo m start0 width0 deg degrees deglen lambda lower upper = Val (m', ret)
    ∧ ∀ (k : nat) v w,
        Z.of_nat k < width0 →
        Cols (mV m) !! (Z.to_nat start0 + k)%nat = Some v →
        Cols (mW m) !! (Z.to_nat start0 + k)%nat = Some w →
        Cols (mV m') !! (Z.to_nat start0 + k)%nat
        = Some (scratch_column uplo (mA m) lambda lower upper
                  (degree_at deg degrees k) v w).
Proof.
  intros Hvalid Hnz Hexit.
  destruct (filter_run_returns uplo m start0 width0 deg degrees deglen lambda lower upper
              Hvalid Hexit) as (fr & _ & Hret & [[Hz _]|[_ (frd & Hdone & ->)]]); [done|].
  eexists _, _. split; [exact Hret|]. intros k v w Hk Hv Hw.
  cbn [mem_of mV set_A V].
  destruct Hvalid as (Hs & _).
  destruct (done_cols _ _ Hdone _ v w Hv Hw) as [HV _]. rewrite HV. f_equal.
  rewrite result_at_degree by done.
  unfold deflated, scratch_column. rewrite buffers_recurrence. cbv zeta.
  cbn [call_of c_A c_e c_sigma_scale].
  by destruct (Nat.even (degree_at deg degrees k)).
Qed.

Lemma DistMatrix_eq (M M' : DistMatrix F) :
  Height M = Height M' → Cols M = Cols M' → M = M'.
Proof. destruct M, M'. simpl. by intros -> ->. Qed.

(** X5: a valid call of maximum degree 1 that the scans do not end
    multiplies once, from V into W, and returns with V as it was. *)
Theorem degree_one_keeps_V uplo m start0 width0 deg degrees deglen lambda lower upper :
  valid_call m start0 width0 deg degrees deglen →
  top_degree deg degrees = 1 →
  is_exit (filter uplo m start0 width0 deg degrees deglen lambda lower upper) = false →
  ∃ m' ret,
    filter uplo m start0 width0 deg degrees deglen lambda lower upper = Val (m', ret)
    ∧ mV m' = mV m.
Proof.
  intros Hvalid Htop Hexit.
  assert (Hnz : top_degree deg degrees ≠ 0) by lia.
  pose proof (good_call_of uplo m start0 width0 deg degrees deglen lambda lower upper
                Hvalid Hnz) as Hgc.
  destruct (filter_run_returns uplo m start0 width0 deg degrees deglen lambda lower upper
              Hvalid Hexit) as (fr & _ & Hret & [[Hz _]|[_ (frd & Hdone & ->)]]); [done|].
  eexists _, _. split; [exact Hret|]. cbn [mem_of mV set_A V].
  set (cl := call_of uplo m start0 width0 deg degrees deglen lambda lower upper) in *.
  apply DistMatrix_eq; [exact (done_HV cl frd Hdone)|].
  apply list_eq. intros c.
  destruct (decide (c_start cl ≤ Z.of_nat c < c_start cl + c_width cl)) as [Hin|Hout];
    [|exact (done_outV cl frd Hdone c Hout)].
  destruct (lookup_lt_is_Some_2 (Cols (c_V cl)) c) as [v Hv];
    [pose proof (gc_WV cl Hgc); unfold Width in *; lia|].
  destruct (lookup_lt_is_Some_2 (Cols (c_W cl)) c) as [w Hw];
    [pose proof (gc_WW cl Hgc); unfold Width in *; lia|].
  destruct (done_cols cl frd Hdone c v w Hv Hw) as [HV _].
  rewrite HV. change (mV m) with (c_V cl). rewrite Hv. f_equal.
  rewrite result_at_inside by done.
  assert (Hd : Z.to_nat (default (c_degmax cl)
                 (schedule cl !! Z.to_nat (Z.of_nat c - c_start cl))) = 1%nat).
  { change (c_degmax cl) with (top_degree deg degrees). rewrite Htop.
    destruct (schedule cl !! _) as [dk|] eqn:Hdk; [|done]. simpl.
    pose proof (gc_pos cl Hgc _ _ Hdk). pose proof (gc_top cl Hgc _ _ Hdk) as Hle.
    change (c_degmax cl) with (top_degree deg degrees) in Hle. lia. }
  rewrite Hd. unfold deflated. by rewrite buffers_recurrence, recurrence_succ.
Qed.

(** ** The shapes of V and W *)

Lemma buffers_length uplo M e sigma_scale n v w :
  length (buffers uplo M e sigma_scale n v w).1 = length v
  ∧ length (buffers uplo M e sigma_scale n v w).2 = length w.
Proof.
  induction n as [|n [IH1 IH2]]; [done|].
  rewrite buffers_succ. cbv zeta.
  destruct (Nat.even (S n)); cbn [fst snd]; by rewrite ?length_hemm_column.
Qed.

Lemma deflated_length uplo M e sigma_scale d v w :
  length (deflated uplo M e sigma_scale d v w).1 = length v
  ∧ length (deflated uplo M e sigma_scale d v w).2 = length w.
Proof.
  unfold deflated.
  destruct (buffers_length uplo M e sigma_scale d v w) as [H1 H2].
  destruct (buffers uplo M e sigma_scale d v w) as [bv bw].
  destruct (Nat.even d); cbn [fst snd] in *; [|done].
  split; [done|]. unfold copy_column. by rewrite length_imap.
Qed.

Lemma result_at_length cl c v w :
  length (result_at cl c v w).1 = length v ∧ length (result_at cl c v w).2 = length w.
Proof.
  unfold result_at. destruct (_ || _); [done|]. apply deflated_length.
Qed.

(** X6: a valid call that the scans do not end returns V and W with the
    shape they had: the same height, the same number of columns and the
    same number of entries in each column. *)
Theorem shapes_kept uplo m start0 width0 deg degrees deglen lambda lower upper :
  valid_call m start0 width0 deg degrees deglen →
  is_exit (filter uplo m start0 width0 deg degrees deglen lambda lower upper) = false →
  ∃ m' ret,
    filter uplo m start0 width0 deg degrees deglen lambda lower upper = Val (m', ret)
    ∧ Height (mV m') = Height (mV m) ∧ column_lengths (mV m') = column_lengths (mV m)
    ∧ Height (mW m') = Height (mW m) ∧ column_lengths (mW m') = column_lengths (mW m).
Proof.
  intros Hvalid Hexit.
  destruct (filter_run_returns uplo m start0 width0 deg degrees deglen lambda lower upper
              Hvalid Hexit) as (fr & _ & Hret & [[Hz ->]|[Hnz (frd & Hdone & ->)]]);
    eexists _, _; (split; [exact Hret|]); [done|].
  cbn [mem_of mV mW set_A V W].
  pose proof (good_call_of uplo m start0 width0 deg degrees deglen lambda lower upper
                Hvalid Hnz) as Hgc.
  set (cl := call_of uplo m start0 width0 deg degrees deglen lambda lower upper) in *.
  assert (Hcols : ∀ c, length <$> Cols (V frd) !! c = length <$> Cols (c_V cl) !! c
                       ∧ length <$> Cols (W frd) !! c = length <$> Cols (c_W cl) !! c).
  { intros c.
    destruct (decide (c_start cl ≤ Z.of_nat c < c_start cl + c_width cl)) as [Hin|Hout];
      [|by rewrite (done_outV cl frd Hdone c Hout), (done_outW cl frd Hdone c Hout)].
    destruct (lookup_lt_is_Some_2 (Cols (c_V cl)) c) as [v Hv];
      [pose proof (gc_WV cl Hgc); unfold Width in *; lia|].
    destruct (lookup_lt_is_Some_2 (Cols (c_W cl)) c) as [w Hw];
      [pose proof (gc_WW cl Hgc); unfold Width in *; lia|].
    destruct (done_cols cl frd Hdone c v w Hv Hw) as [HV HW].
    destruct (result_at_length cl c v w) as [H1 H2].
    rewrite HV, HW, Hv, Hw. simpl. by rewrite H1, H2. }
  split_and!.
  - exact (done_HV cl frd Hdone).
  - apply list_eq. intros c. unfold column_lengths. rewrite !list_lookup_fmap.
    apply Hcols.
  - exact (done_HW cl frd Hdone).
  - apply list_eq. intros c. unfold column_lengths. rewrite !list_lookup_fmap.
    apply Hcols.
Qed.

(** ** The schedule is used up *)

(** X2: in a valid call with a schedule, every vector of the schedule has
    left the active range when the call returns: the routine ends with
    [j] at [deglen], [start] moved up by [deglen] and [width] reduced by
    [deglen]. *)
Theorem schedule_used_up macro uplo m start0 width0 deg ds deglen lambda lower upper fr :
  valid_call m start0 width0 deg (Some ds) deglen →
  filter_run macro uplo m start0 width0 deg (Some ds) deglen lambda lower upper = Val fr →
  j fr = deglen ∧ start fr = start0 + deglen ∧ width fr = width0 - deglen.
Proof.
  intros Hvalid Hrun.
  pose proof (valid_schedule_top m start0 width0 deg ds deglen Hvalid) as Htop.
  assert (Hnz : top_degree deg (Some ds) ≠ 0) by lia.
  pose proof (good_call_of uplo m start0 width0 deg (Some ds) deglen lambda lower upper
                Hvalid Hnz) as Hgc.
  destruct (filter_run_trace macro uplo m start0 width0 deg (Some ds) deglen
              lambda lower upper fr Hvalid Hnz Hrun)
    as (fr1 & fr2 & frd & _ & _ & _ & Hinv2 & Hcopy & _ & ->).
  apply final_copy_fields in Hcopy as (_ & _ & Hs & Hw & Hj & _).
  cbn [set_A j start width]. rewrite Hs, Hw, Hj.
  rewrite (inv_start _ _ _ Hinv2), (inv_width _ _ _ Hinv2).
  rewrite (Inv_top_j _ _ fr2 Hgc Hinv2)
    by (change (c_degmax _) with (top_degree deg (Some ds)); lia).
  done.
Qed.

(** ** A schedule that is not sorted *)

Lemma while_blocked ds deglen i d0 :
  0 < deglen → ds !! 0%nat = Some d0 → d0 ≠ i →
  while_degree_is ds deglen i 0 = Val 0.
Proof.
  intros Hlen Hd0 Hne. unfold while_degree_is.
  destruct (Z.to_nat (deglen - 0)) as [|n] eqn:Hn; [lia|]. cbn [skip_degree].
  destruct (Z.ltb_spec 0 deglen); [|lia].
  rewrite (read_lookup ds 0 d0), bind_Val by done.
  by destruct (Z.eqb_spec d0 i).
Qed.

Lemma deflate_blocked N ds deglen i fr d0 :
  0 < deglen → ds !! 0%nat = Some d0 → d0 ≠ i →
  j fr = 0 → INT_MIN ≤ start fr ≤ INT_MAX → INT_MIN ≤ width fr ≤ INT_MAX →
  deflate N (Some ds) deglen i fr = Val fr.
Proof.
  intros Hlen Hd0 Hne Hj Hs Hw. unfold deflate. rewrite Hj.
  rewrite (while_blocked ds deglen i d0), bind_Val by done.
  unfold int_sub, int_add.
  rewrite (int_val_ok (0 - 0)), bind_Val by (unfold INT_MIN, INT_MAX; lia).
  rewrite (int_val_ok (width fr - (0 - 0))), bind_Val by lia.
  rewrite andb_false_r, bind_Val.
  cbn [set_width set_j start]. rewrite (int_val_ok (start fr + (0 - 0))), bind_Val by lia.
  f_equal. destruct fr. unfold set_start. simpl in *. subst. f_equal; lia.
Qed.

Lemma for_loop_blocked uplo N e sigma_scale ds deglen deglen' d0 : ∀ n i fr,
  0 < deglen → ds !! 0%nat = Some d0 →
  (∀ i', i ≤ i' < i + Z.of_nat n → d0 ≠ i') →
  j fr = 0 → INT_MIN ≤ start fr ≤ INT_MAX → INT_MIN ≤ width fr ≤ INT_MAX →
  for_loop uplo N e sigma_scale (Some ds) deglen n i fr
  = for_loop uplo N e sigma_scale None deglen' n i fr.
Proof.
  induction n as [|n IH]; intros i fr Hlen Hd0 Hne Hj Hs Hw; [done|].
  rewrite !for_loop_succ. unfold iteration.
  destruct (multiply uplo N e sigma_scale i fr) as [fr1|mx|mx out|] eqn:Hm; try done.
  apply multiply_fields in Hm as (_ & Hs1 & Hw1 & Hj1 & _).
  rewrite !bind_Val.
  rewrite (deflate_blocked N ds deglen i fr1 d0) by (done || lia || (apply Hne; lia)).
  change (deflate N None deglen' i fr1) with (Val fr1). rewrite !bind_Val.
  destruct (int_add i 1) as [i1|mx|mx out|] eqn:Hi; try done.
  apply int_val_inv in Hi as [-> _]. rewrite !bind_Val.
  apply IH; try done; try lia. intros i' Hi'. apply Hne. lia.
Qed.

Lemma first_step_blocked macro uplo N e sigma_scale ds deglen deglen' d0 fr :
  0 < deglen → ds !! 0%nat = Some d0 → d0 ≠ 1 →
  j fr = 0 → INT_MIN ≤ start fr ≤ INT_MAX → INT_MIN ≤ width fr ≤ INT_MAX →
  first_step macro uplo N e sigma_scale (Some ds) deglen fr
  = first_step macro uplo N e sigma_scale None deglen' fr.
Proof.
  intros Hlen Hd0 Hne Hj Hs Hw. unfold first_step.
  destruct (int_add (start fr) (width fr)) as [sw|mx|mx out|]; try done.
  rewrite !bind_Val.
  destruct (negb _); [done|]. destruct (negb _); [done|].
  destruct (take_views 98 N (start fr) (width fr) fr) as [[[vv vw] fr1]|mx|mx out|] eqn:Hv;
    try done.
  apply take_views_inv in Hv as ->. rewrite !bind_Val.
  destruct (_ && _); [done|]. destruct (_ && _); [done|].
  destruct (int_add _ _) as [t|mx|mx out|]; try done.
  rewrite !bind_Val.
  cbn [set_total set_W add_view j start width]. rewrite Hj.
  rewrite (while_blocked ds deglen 1 d0), bind_Val by done.
  unfold int_sub, int_add.
  rewrite (int_val_ok (width fr - 0)), bind_Val by lia.
  rewrite (int_val_ok (start fr + 0)), bind_Val by lia.
  f_equal. destruct fr. unfold set_start, set_width, set_j. simpl in *. subst.
  unfold set_total, set_W, add_view. simpl. f_equal; lia.
Qed.

Lemma first_step_null_fields macro uplo N e sigma_scale deglen fr fr' :
  first_step macro uplo N e sigma_scale None deglen fr = Val fr' →
  start fr' = start fr ∧ width fr' = width fr ∧ j fr' = j fr.
Proof.
  unfold first_step. intros H.
  apply bind_Val_inv in H as (sw & _ & H).
  destruct (negb _); [done|]. destruct (negb _); [done|].
  apply bind_Val_inv in H as ([[vv vw] fr1] & Hviews & H).
  apply take_views_inv in Hviews as ->.
  destruct (_ && _); [done|]. destruct (_ && _); [done|].
  apply bind_Val_inv in H as (t & _ & [= <-]). done.
Qed.

(** X13: the schedule is consumed from its first entry, and only by a
    degree that equals it.  When the first entry is below 1, or above
    both 1 and the maximum degree that lines 80-82 compute, neither the
    first step nor a degree of the loop equals it: no vector ever
    leaves, and the call is the call without a schedule at that maximum
    degree. *)
Theorem unmatched_first_entry_disables_schedule uplo m start0 width0 deg ds deglen
    lambda lower upper d0 dl :
  1 ≤ deglen ≤ INT_MAX →
  INT_MIN ≤ start0 ≤ INT_MAX → INT_MIN ≤ width0 ≤ INT_MAX →
  ds !! 0%nat = Some d0 → ds !! Z.to_nat (deglen - 1) = Some dl →
  let degmax := if deg >=? dl then deg else dl in
  d0 < 1 ∨ (1 < d0 ∧ degmax < d0) →
  filter uplo m start0 width0 deg (Some ds) deglen lambda lower upper
  = filter uplo m start0 width0 degmax None deglen lambda lower upper.
Proof.
  intros Hlen Hs Hw Hd0 Hdl degmax Hhead. unfold filter. f_equal.
  rewrite !filter_run_unfold. cbv zeta.
  unfold degmax_of at 1. unfold int_sub.
  rewrite int_val_ok, bind_Val by (unfold INT_MIN, INT_MAX in *; lia).
  rewrite (read_lookup ds (deglen - 1) dl), bind_Val by (done || lia).
  fold degmax. cbn [degmax_of]. rewrite !bind_Val.
  destruct (degmax =? 0); [done|].
  cbn [call_of c_uplo c_A c_e c_sigma_scale c_degrees c_deglen]. unfold c_N.
  cbn [call_of c_A].
  rewrite (first_step_blocked _ _ _ _ _ ds deglen deglen d0); try done; try lia.
  unfold entry_frame.
  cbn [call_of c_uplo c_A c_V c_W c_start c_width c_e c_sigma_scale c_degrees c_deglen].
  match goal with
  | |- (?r ≫= _) = _ => destruct r as [fr1|mx|mx out|] eqn:Hfirst; try done
  end.
  apply first_step_null_fields in Hfirst as (Hs1 & Hw1 & Hj1).
  cbn [start width j] in Hs1, Hw1, Hj1.
  rewrite !bind_Val.
  rewrite (for_loop_blocked _ _ _ _ ds deglen deglen d0); try done; try lia.
Qed.

(** ** Where the job can be ended *)

Lemma first_step_exits macro uplo N e sigma_scale degrees deglen fr mm out :
  first_step macro uplo N e sigma_scale degrees deglen fr = Exits mm out →
  ifdef macro = true ∧ mA mm = A fr ∧ mV mm = V fr ∧ out ≠ [].
Proof.
  unfold first_step, int_add, int_val.
  destruct (int_ok (start fr + width fr)); [|done]. rewrite bind_Val.
  destruct (negb _); [done|]. destruct (negb _); [done|].
  destruct (take_views 98 N (start fr) (width fr) fr) as [[[vv vw] fr1]|mx|mx out'|] eqn:Hv;
    try done; [|by pose proof (take_views_no_exit 98 N (start fr) (width fr) fr) as Hno;
                  rewrite Hv in Hno].
  apply take_views_inv in Hv as ->. rewrite bind_Val.
  destruct (ifdef macro); cbn [andb].
  - destruct (bool_decide_reflect (nan_scan 108 113 118
               (add_view (98 + 1) (start fr) (width fr)
                  (add_view 98 (start fr) (width fr) fr)) = [])) as [Hs1|Hs1]; cbn [negb].
    + destruct (bool_decide _); cbn [negb].
      2:{ intros [= <- <-]. split_and!; try done.
          intros Hnil. by apply app_eq_nil in Hnil as [_ ?]. }
      intros H. exfalso.
      assert (Hno : is_exit (Exits (X:=Frame) mm out) = false); [|done].
      rewrite <- H. apply bind_no_exit; [apply int_val_no_exit|]. intros total.
      destruct degrees as [ds|]; [|done].
      apply bind_no_exit; [apply skip_degree_no_exit|]. intros j'.
      apply bind_no_exit; [apply int_val_no_exit|]. intros width'.
      apply bind_no_exit; [apply int_val_no_exit|]. done.
    + intros [= <- <-]. done.
  - intros H. exfalso.
    assert (Hno : is_exit (Exits (X:=Frame) mm out) = false); [|done].
    rewrite <- H. apply bind_no_exit; [apply int_val_no_exit|]. intros total.
    destruct degrees as [ds|]; [|done].
    apply bind_no_exit; [apply skip_degree_no_exit|]. intros j'.
    apply bind_no_exit; [apply int_val_no_exit|]. intros width'.
    apply bind_no_exit; [apply int_val_no_exit|]. done.
Qed.

(** X9: [exit(1)] is called at the two scans and nowhere else: whatever
    the arguments, a call that ends the job has printed at least one
    line, and it ends with V as it was on entry and the diagonal of the
    operator shifted. *)
Theorem exit_only_at_scans uplo m start0 width0 deg degrees deglen
    lambda lower upper mm out :
  filter uplo m start0 width0 deg degrees deglen lambda lower upper = Exits mm out →
  let c := rdiv (radd upper lower) r_two in
  mA mm = ShiftDiagonal (mA m) (ropp c) ∧ mV mm = mV m ∧ out ≠ [].
Proof.
  intros H c. unfold filter in H.
  destruct (filter_run _ _ _ _ _ _ _ _ _ _ _) as [fr|mm'|mm' out'|] eqn:Hrun; try done.
  injection H as -> ->.
  rewrite filter_run_unfold in Hrun. cbv zeta in Hrun.
  destruct (degmax_of deg degrees deglen) as [degmax|mx|mx out'|] eqn:Hdm; try done.
  - rewrite bind_Val in Hrun. destruct (degmax =? 0); [done|].
    destruct (first_step _ _ _ _ _ _ _ _) as [fr1|mm1|mm1 out1| ] eqn:Hfirst; try done.
    + rewrite bind_Val in Hrun. exfalso.
      assert (Hno : is_exit (Exits (X:=Frame) mm out) = false); [|done].
      rewrite <- Hrun. apply bind_no_exit; [apply for_loop_no_exit|]. intros fr2.
      apply bind_no_exit; [apply final_copy_no_exit|]. done.
    + injection Hrun as -> ->. by apply first_step_exits in Hfirst as (_ & ? & ? & ?).
  - exfalso. assert (Hno : is_exit (Exits (X:=Z) mx out') = false); [|done].
    rewrite <- Hdm. unfold degmax_of. destruct degrees as [ds|]; [|done].
    apply bind_no_exit; [apply int_val_no_exit|]. intros k.
    apply bind_no_exit; [apply read_no_exit|]. done.
Qed.

(** ** An empty range *)

(** X7: a valid call on an empty range that the scans do not end changes
    nothing and returns 0, whatever the degree: the multiplies run on
    blocks without columns. *)
Theorem empty_range_changes_nothing uplo m start0 deg degrees deglen lambda lower upper :
  valid_call m start0 0 deg degrees deglen →
  is_exit (filter uplo m start0 0 deg degrees deglen lambda lower upper) = false →
  filter uplo m start0 0 deg degrees deglen lambda lower upper = Val (m, 0).
Proof.
  intros Hvalid Hexit.
  destruct (filter_run_returns uplo m start0 0 deg degrees deglen lambda lower upper
              Hvalid Hexit) as (fr & _ & Hret & [[Hz ->]|[Hnz (frd & Hdone & ->)]]);
    rewrite Hret; [by rewrite mem_of_initial|].
  set (cl := call_of uplo m start0 0 deg degrees deglen lambda lower upper) in *.
  pose proof (done_total cl frd Hdone) as Ht. change (c_width cl) with 0 in Ht.
  f_equal. f_equal; [|cbn [set_A total_vcts_filtered]; lia].
  destruct m as [MA MV MW]. unfold mem_of. cbn [set_A A V W mA]. f_equal.
  - apply DistMatrix_eq; [exact (done_HV cl frd Hdone)|].
    apply list_eq. intros c. apply (done_outV cl frd Hdone).
    change (c_width cl) with 0. lia.
  - apply DistMatrix_eq; [exact (done_HW cl frd Hdone)|].
    apply list_eq. intros c. apply (done_outW cl frd Hdone).
    change (c_width cl) with 0. lia.
Qed.

(** ** The rows below the operator *)

Lemma result_at_row cl c v w (r : nat) :
  (Height (c_A cl) ≤ r)%nat →
  (result_at cl c v w).1 !! r = v !! r ∧ (result_at cl c v w).2 !! r = w !! r.
Proof.
  intros Hr. unfold result_at. destruct (_ || _); [done|]. unfold deflated.
  destruct (buffers_row (c_uplo cl) (c_A cl) (c_e cl) (c_sigma_scale cl)
              (Z.to_nat (default (c_degmax cl)
                 (schedule cl !! Z.to_nat (Z.of_nat c - c_start cl)))) v w r Hr)
    as [H1 H2].
  destruct (buffers _ _ _ _ _ v w) as [bv bw].
  destruct (Nat.even _); cbn [fst snd] in *; [|done].
  by rewrite copy_column_row.
Qed.

(** X14: the views have the rows of the operator.  When V and W have
    more rows than A, a valid call that the scans do not end leaves
    every entry of V and W in a row from [A.Height()] on as it was. *)
Theorem rows_below_operator_untouched uplo m start0 width0 deg degrees deglen
    lambda lower upper :
  valid_call m start0 width0 deg degrees deglen →
  is_exit (filter uplo m start0 width0 deg degrees deglen lambda lower upper) = false →
  ∃ m' ret,
    filter uplo m start0 width0 deg degrees deglen lambda lower upper = Val (m', ret)
    ∧ ∀ (c r : nat), (Height (mA m) ≤ r)%nat →
        Get (mV m') r c = Get (mV m) r c ∧ Get (mW m') r c = Get (mW m) r c.
Proof.
  intros Hvalid Hexit.
  destruct (filter_run_returns uplo m start0 width0 deg degrees deglen lambda lower upper
              Hvalid Hexit) as (fr & _ & Hret & [[Hz ->]|[Hnz (frd & Hdone & ->)]]);
    eexists _, _; (split; [exact Hret|]); [done|].
  cbn [mem_of mV mW set_A V W]. intros c r Hr.
  pose proof (good_call_of uplo m start0 width0 deg degrees deglen lambda lower upper
                Hvalid Hnz) as Hgc.
  set (cl := call_of uplo m start0 width0 deg degrees deglen lambda lower upper) in *.
  unfold Get.
  destruct (decide (c_start cl ≤ Z.of_nat c < c_start cl + c_width cl)) as [Hin|Hout];
    [|by rewrite (done_outV cl frd Hdone c Hout), (done_outW cl frd Hdone c Hout)].
  destruct (lookup_lt_is_Some_2 (Cols (c_V cl)) c) as [v Hv];
    [pose proof (gc_WV cl Hgc); unfold Width in *; lia|].
  destruct (lookup_lt_is_Some_2 (Cols (c_W cl)) c) as [w Hw];
    [pose proof (gc_WW cl Hgc); unfold Width in *; lia|].
  destruct (done_cols cl frd Hdone c v w Hv Hw) as [HV HW].
  destruct (result_at_row cl c v w r) as [H1 H2].
  { unfold cl, call_of. cbn [c_A]. by rewrite Height_ShiftDiagonal. }
  change (mV m) with (c_V cl). change (mW m) with (c_W cl).
  rewrite HV, HW, Hv, Hw. simpl. by rewrite H1, H2.
Qed.

(** ** The results in W *)

(** After an even degree the column of W has received the first rows of
    the column of V. *)
Lemma deflated_even_copy uplo M e sigma_scale d v w :
  Nat.even d = true →
  (Height M ≤ length v)%nat → (Height M ≤ length w)%nat →
  take (Height M) (deflated uplo M e sigma_scale d v w).2
  = take (Height M) (deflated uplo M e sigma_scale d v w).1.
Proof.
  intros Hev Hv Hw. unfold deflated.
  destruct (buffers_length uplo M e sigma_scale d v w) as [H1 H2].
  destruct (buffers uplo M e sigma_scale d v w) as [bv bw]. cbn [fst snd] in *.
  rewrite Hev. cbn [fst snd]. rewrite copy_column_take.
  apply copy_column_full; rewrite length_take; lia.
Qed.

(** C3, amended: in a valid call with a maximum degree other than zero,
    on matrices V and W whose columns have their height, with no entry
    of the schedule above [deg], and that the scans do not end, the
    column of W at each position [k] of the range holds on return, in
    its first [N] rows, the final filtered result of that vector: the
    term of the three-term recurrence, taken on the first [N] rows of
    the columns of V and W on entry, of the degree that the
    specification gives the vector, min(degrees[k], deg), or [deg] where
    the schedule has no entry.  The rows from [N] on are those of W on
    entry.  Where that degree is even the last update landed in V, and
    the first [N] rows of the column of W are those of the column of V
    on return: the copy made when the vector left, or after the loop.
    With the maximum degree zero the call returns at once and W is as
    it was. *)
Theorem results_in_W uplo m start0 width0 deg degrees deglen lambda lower upper :
  valid_call m start0 width0 deg degrees deglen →
  well_formed (mV m) → well_formed (mW m) →
  schedule_within deg degrees →
  is_exit (filter uplo m start0 width0 deg degrees deglen lambda lower upper) = false →
  let N := Height (mA m) in
  (top_degree deg degrees = 0 →
   filter uplo m start0 width0 deg degrees deglen lambda lower upper = Val (m, 0))
  ∧ (top_degree deg degrees ≠ 0 →
     ∃ m' ret,
       filter uplo m start0 width0 deg degrees deglen lambda lower upper = Val (m', ret)
       ∧ ∀ (k : nat) v w,
           Z.of_nat k < width0 →
           Cols (mV m) !! (Z.to_nat start0 + k)%nat = Some v →
           Cols (mW m) !! (Z.to_nat start0 + k)%nat = Some w →
           ∃ colV colW,
             Cols (mV m') !! (Z.to_nat start0 + k)%nat = Some colV
             ∧ Cols (mW m') !! (Z.to_nat start0 + k)%nat = Some colW
             ∧ take N colW
               = filtered uplo (mA m) lambda lower upper (spec_degree deg degrees k)
                   (take N v) (take N w)
             ∧ drop N colW = drop N w
             ∧ (Nat.even (spec_degree deg degrees k) = true →
                take N colW = take N colV)).
Proof.
  intros Hvalid HwV HwW Hin Hexit N.
  destruct (filter_run_returns uplo m start0 width0 deg degrees deglen lambda lower upper
              Hvalid Hexit) as (fr & _ & Hret & Hcase).
  split.
  - intros Hz. destruct Hcase as [[_ ->]|[Hnz _]]; [|done].
    rewrite Hret. cbn [total_vcts_filtered]. by rewrite mem_of_initial.
  - intros Hnz. destruct Hcase as [[Hz _]|[_ (frd & Hdone & ->)]]; [done|].
    eexists _, _. split; [exact Hret|]. intros k v w Hk Hv Hw.
    cbn [mem_of mV mW set_A V W].
    pose proof Hvalid as (Hs & _ & _ & _ & _ & HHV & HHW & _).
    destruct (done_cols _ _ Hdone _ v w Hv Hw) as [HV HW].
    rewrite result_at_degree in HV, HW by done.
    cbn [call_of c_A c_e c_sigma_scale] in HV, HW.
    rewrite (spec_degree_at m start0 width0 deg degrees deglen k Hvalid Hin).
    unfold well_formed in HwV, HwW. rewrite Forall_lookup in HwV, HwW.
    pose proof (HwV _ _ Hv) as Hlv. pose proof (HwW _ _ Hw) as Hlw.
    eexists _, _. split; [exact HV|]. split; [exact HW|].
    unfold filtered. subst N.
    rewrite <- (Height_ShiftDiagonal (mA m) (ropp (rdiv (radd upper lower) r_two))).
    split_and!.
    + apply deflated_rows; rewrite Height_ShiftDiagonal; lia.
    + apply deflated_rows; rewrite Height_ShiftDiagonal; lia.
    + intros Hev. apply deflated_even_copy; rewrite ?Height_ShiftDiagonal; (done || lia).
Qed.

End Properties.

(** * The properties on binary64 data *)

Import Example.

Ltac valid_now :=
  unfold valid_call, schedule_ok, block_rows; simpl;
  repeat split; try lia; try reflexivity; try (repeat constructor; done).

Lemma schedule_needs_deglen_witness :
  0 < 1 ∧ filter LOWER mem3 0 3 3 (Some []) 0 5%float (-1)%float 1%float = Undef.
Proof. split; [lia|]. apply schedule_needs_deglen. lia. Defined.

Lemma assertion_failure_leaves_shift_witness :
  ∃ mm,
    filter LOWER mem3 0 4 1 None 0 5%float 1%float 3%float = Throws mm
    ∧ mV mm = V3 ∧ mW mm = W3
    ∧ Get (mA mm) 0 0 = (2 + - ((3 + 1) / 2))%float
    ∧ Get (mA mm) 1 1 = (3 + - ((3 + 1) / 2))%float
    ∧ Get (mA mm) 0 1 = Get A2 0 1 ∧ Get (mA mm) 1 0 = Get A2 1 0
    ∧ mA mm ≠ mA mem3.
Proof.
  destruct (assertion_failure_leaves_shift LOWER mem3 0 4 1 None 0
              5%float 1%float 3%float 1)
    as (mm & Hrun & Hmm & Hdiag & Hoff & Hne); [reflexivity|lia|reflexivity|reflexivity|].
  exists mm. split; [exact Hrun|].
  split; [by rewrite Hmm|]. split; [by rewrite Hmm|].
  split; [apply (Hdiag 0%nat [2; 1]%float); [simpl; lia|reflexivity|reflexivity]|].
  split; [apply (Hdiag 1%nat [1; 3]%float); [simpl; lia|reflexivity|reflexivity]|].
  split; [apply Hoff; lia|]. split; [apply Hoff; lia|].
  apply Hne. exists 0%nat, [2; 1]%float, 2%float.
  split; [simpl; lia|]. split; [reflexivity|]. split; [reflexivity|].
  intros H. apply (f_equal (λ x, PrimFloat.ltb x 1)) in H.
  vm_compute in H. discriminate.
Defined.

(** The operator that this call leaves behind is not the one it got. *)
Lemma shifted_operator_differs :
  Cols (ShiftDiagonal A2 (- ((3 + 1) / 2))%float) = [[0; 1]; [1; 1]]%float
  ∧ Cols A2 = [[2; 1]; [1; 3]]%float.
Proof. split; reflexivity. Qed.

Lemma operator_restored_witness :
  valid_call mem3 0 3 3 (Some [1; 2; 3]) 3
  ∧ ∃ m' ret,
      filter LOWER mem3 0 3 3 (Some [1; 2; 3]) 3 5%float 1%float 3%float = Val (m', ret)
      ∧ mA m' = mA mem3.
Proof.
  assert (Hv : valid_call mem3 0 3 3 (Some [1; 2; 3]) 3) by valid_now.
  split; [exact Hv|].
  apply (operator_restored LOWER mem3 0 3 3 (Some [1; 2; 3]) 3 5%float 1%float 3%float Hv).
  vm_compute. reflexivity.
Defined.

(** In that call c is 2: the operator that the multiplies use is not the
    one of the caller, and the columns of W are those of the shifted
    operator. *)
Lemma shift_then_restore_on_data :
  Cols (ShiftDiagonal (mA mem3) (- ((3 + 1) / 2))%float) = [[0; 1]; [1; 1]]%float
  ∧ ∃ m', filter LOWER mem3 0 3 3 (Some [1; 2; 3]) 3 5%float 1%float 3%float = Val (m', 6)
          ∧ Cols (mA m') = [[2; 1]; [1; 3]]%float
          ∧ Cols (mW m') !! 0%nat = Some [0; 0x1.5555555555555p-2]%float.
Proof.
  split; [reflexivity|]. eexists. split; [vm_compute; reflexivity|].
  split; vm_compute; reflexivity.
Qed.

Lemma cost_without_schedule_witness :
  valid_call mem3 0 2 3 None 0
  ∧ ∃ m', filter LOWER mem3 0 2 3 None 0 5%float (-1)%float 1%float = Val (m', 2 * 3).
Proof.
  assert (Hv : valid_call mem3 0 2 3 None 0) by valid_now.
  split; [exact Hv|].
  apply (cost_without_schedule LOWER mem3 0 2 3 0 5%float (-1)%float 1%float Hv).
  vm_compute. reflexivity.
Defined.

Lemma active_range_frame_witness :
  valid_call mem3 1 2 4 (Some [2; 3]) 2
  ∧ ∃ fr,
      filter_run SEARCH_NAN LOWER mem3 1 2 4 (Some [2; 3]) 2 5%float (-1)%float 1%float
      = Val fr
      ∧ start fr + width fr = 1 + 2
      ∧ Forall (λ '(line, s, w),
                  1 ≤ s ∧ 0 ≤ w ∧ s + w ≤ 1 + 2
                  ∧ (line ≠ 206 → line ≠ 207 → s + w = 1 + 2)) (views fr)
      ∧ Width (V fr) = Width (mV mem3) ∧ Width (W fr) = Width (mW mem3)
      ∧ (∀ c : nat, ¬ (1 ≤ Z.of_nat c < 1 + 2) →
           Cols (V fr) !! c = Cols (mV mem3) !! c ∧ Cols (W fr) !! c = Cols (mW mem3) !! c)
      ∧ ∀ N i fr1 fr2, deflate N (Some [2; 3]) 2 i fr1 = Val fr2 →
          start fr2 + width fr2 = start fr1 + width fr1.
Proof.
  assert (Hv : valid_call mem3 1 2 4 (Some [2; 3]) 2) by valid_now.
  split; [exact Hv|].
  apply (active_range_frame LOWER mem3 1 2 4 (Some [2; 3]) 2 5%float (-1)%float 1%float Hv).
  vm_compute. reflexivity.
Defined.

Lemma results_in_W_witness :
  valid_call Tall.mem_tall 0 2 2 (Some [1; 2]) 2
  ∧ well_formed (mV Tall.mem_tall) ∧ well_formed (mW Tall.mem_tall)
  ∧ schedule_within 2 (Some [1; 2])
  ∧ (top_degree 2 (Some [1; 2]) = 0 →
     filter LOWER Tall.mem_tall 0 2 2 (Some [1; 2]) 2 5%float 1%float 3%float
     = Val (Tall.mem_tall, 0))
  ∧ (top_degree 2 (Some [1; 2]) ≠ 0 →
     ∃ m' ret,
       filter LOWER Tall.mem_tall 0 2 2 (Some [1; 2]) 2 5%float 1%float 3%float
       = Val (m', ret)
       ∧ ∀ (k : nat) v w,
           Z.of_nat k < 2 →
           Cols (mV Tall.mem_tall) !! (Z.to_nat 0 + k)%nat = Some v →
           Cols (mW Tall.mem_tall) !! (Z.to_nat 0 + k)%nat = Some w →
           ∃ colV colW,
             Cols (mV m') !! (Z.to_nat 0 + k)%nat = Some colV
             ∧ Cols (mW m') !! (Z.to_nat 0 + k)%nat = Some colW
             ∧ take (Height (mA Tall.mem_tall)) colW
               = filtered LOWER (mA Tall.mem_tall) 5%float 1%float 3%float
                   (spec_degree 2 (Some [1; 2]) k)
                   (take (Height (mA Tall.mem_tall)) v)
                   (take (Height (mA Tall.mem_tall)) w)
             ∧ drop (Height (mA Tall.mem_tall)) colW
               = drop (Height (mA Tall.mem_tall)) w
             ∧ (Nat.even (spec_degree 2 (Some [1; 2]) k) = true →
                take (Height (mA Tall.mem_tall)) colW
                = take (Height (mA Tall.mem_tall)) colV)).
Proof.
  assert (Hv : valid_call Tall.mem_tall 0 2 2 (Some [1; 2]) 2) by valid_now.
  assert (HwV : well_formed (mV Tall.mem_tall)) by (repeat constructor).
  assert (HwW : well_formed (mW Tall.mem_tall)) by (repeat constructor).
  assert (Hin : schedule_within 2 (Some [1; 2])) by (repeat constructor; lia).
  split; [exact Hv|]. split; [exact HwV|]. split; [exact HwW|]. split; [exact Hin|].
  apply (results_in_W LOWER Tall.mem_tall 0 2 2 (Some [1; 2]) 2
           5%float 1%float 3%float Hv HwV HwW Hin).
  vm_compute. reflexivity.
Defined.

(** The two columns of W after that call: the terms of degree 1 and 2 on
    the first two rows, the third row as it was; the second vector left
    at the even degree 2, and its column of W has the first two rows of
    its column of V. *)
Lemma columns_of_W_on_data :
  ∃ m', filter LOWER Tall.mem_tall 0 2 2 (Some [1; 2]) 2 5%float 1%float 3%float
        = Val (m', 3)
        ∧ Cols (mW m') !! 0%nat
          = Some (filtered LOWER Example.A2 5%float 1%float 3%float 1
                    [1; 0]%float [0; 0]%float ++ [9%float])
        ∧ Cols (mW m') !! 1%nat
          = Some (filtered LOWER Example.A2 5%float 1%float 3%float 2
                    [0; 1]%float [0; 0]%float ++ [9%float])
        ∧ Cols (mV m') !! 1%nat
          = Some (filtered LOWER Example.A2 5%float 1%float 3%float 2
                    [0; 1]%float [0; 0]%float ++ [8%float]).
Proof.
  eexists. split; [vm_compute; reflexivity|]. split; [vm_compute; reflexivity|].
  split; vm_compute; reflexivity.
Qed.

Lemma schedule_123_as_single_calls_witness :
  valid_call mem3 0 3 3 (Some [1; 2; 3]) 3
  ∧ ∃ mb rb m1 r1 m2 r2 m3 r3,
      filter LOWER mem3 0 3 3 (Some [1; 2; 3]) 3 5%float (-1)%float 1%float = Val (mb, rb)
      ∧ filter LOWER mem3 0 1 1 None 0 5%float (-1)%float 1%float = Val (m1, r1)
      ∧ filter LOWER mem3 (0 + 1) 1 2 None 0 5%float (-1)%float 1%float = Val (m2, r2)
      ∧ filter LOWER mem3 (0 + 2) 1 3 None 0 5%float (-1)%float 1%float = Val (m3, r3)
      ∧ Cols (mW mb) !! Z.to_nat 0 = Cols (mW m1) !! Z.to_nat 0
      ∧ Cols (mW mb) !! Z.to_nat (0 + 1) = Cols (mW m2) !! Z.to_nat (0 + 1)
      ∧ Cols (mW mb) !! Z.to_nat (0 + 2) = Cols (mW m3) !! Z.to_nat (0 + 2).
Proof.
  assert (Hv : valid_call mem3 0 3 3 (Some [1; 2; 3]) 3) by valid_now.
  split; [exact Hv|].
  apply (schedule_123_as_single_calls LOWER mem3 0 5%float (-1)%float 1%float Hv);
    vm_compute; reflexivity.
Defined.

(** The three columns that both ways of calling produce. *)
Lemma schedule_123_columns :
  ∃ m', filter LOWER mem3 0 3 3 (Some [1; 2; 3]) 3 5%float (-1)%float 1%float = Val (m', 6)
        ∧ Cols (mW m')
          = [[0x1.999999999999ap-2; 0x1.999999999999ap-3];
             [0x1.a1f58d0fac687p-3; 0x1.8d0fac687d635p-2];
             [0x1.1495e7b836e52p-2; 0x1.b728a4af3dc1ap-2]]%float.
Proof. eexists. split; vm_compute; reflexivity. Qed.

(** C7, the claim as stated fails: the header as it is scans, and a NaN
    in V ends the job at the first scan, before any multiply. *)
Lemma default_configuration_scans :
  valid_call mem_nan 0 1 1 None 0
  ∧ ifdef SEARCH_NAN = true
  ∧ filter LOWER mem_nan 0 1 1 None 0 5%float (-1)%float 1%float
    = Exits (mkMem (ShiftDiagonal A2 (- ((1 + -1) / 2))%float) Vnan W3)
        [ContainsNan BufV 108].
Proof. split; [valid_now|]. split; vm_compute; reflexivity. Qed.

Lemma nan_scan_compiled_in_witness :
  valid_call mem_nan 0 1 1 None 0
  ∧ let cl := call_of LOWER mem_nan 0 1 1 None 0 5%float 1%float 3%float in
    let scan1 := nan_scan 108 113 118 (scanned_frame cl) in
    let scan2 := nan_scan 137 142 147 (first_frame cl) in
    ifdef SEARCH_NAN = true
    ∧ (top_degree 1 None = 0 →
       filter LOWER mem_nan 0 1 1 None 0 5%float 1%float 3%float = Val (mem_nan, 0))
    ∧ (top_degree 1 None ≠ 0 →
       (scan1 ≠ [] →
        filter LOWER mem_nan 0 1 1 None 0 5%float 1%float 3%float
        = Exits (mem_of (scanned_frame cl)) scan1)
       ∧ (scan1 = [] → scan2 ≠ [] →
          filter LOWER mem_nan 0 1 1 None 0 5%float 1%float 3%float
          = Exits (mem_of (first_frame cl))
              (scan2 ++ [AlphaStartWidth (first_alpha cl) 0 1]))
       ∧ (scan1 = [] → scan2 = [] →
          is_exit (filter LOWER mem_nan 0 1 1 None 0 5%float 1%float 3%float) = false))
    ∧ is_exit (filter_run None LOWER mem_nan 0 1 1 None 0 5%float 1%float 3%float)
      = false
    ∧ mem_of (scanned_frame cl)
      = mkMem (ShiftDiagonal (mA mem_nan) (ropp (rdiv (radd 3%float 1%float) r_two)))
          (mV mem_nan) (mW mem_nan)
    ∧ mA (mem_of (first_frame cl))
      = ShiftDiagonal (mA mem_nan) (ropp (rdiv (radd 3%float 1%float) r_two))
    ∧ mV (mem_of (first_frame cl)) = mV mem_nan.
Proof.
  assert (Hv : valid_call mem_nan 0 1 1 None 0) by valid_now.
  split; [exact Hv|].
  apply (nan_scan_compiled_in LOWER mem_nan 0 1 1 None 0 5%float 1%float 3%float Hv).
Defined.

(** The three outcomes on data: a NaN in V ends the job at the first
    scan; with the maximum degree zero the same data is returned without
    a scan; clean data is not ended. *)
Lemma scans_on_data :
  filter LOWER mem_nan 0 1 1 None 0 5%float 1%float 3%float
  = Exits (mkMem (ShiftDiagonal A2 (- ((3 + 1) / 2))%float) Vnan W3)
      [ContainsNan BufV 108]
  ∧ filter LOWER mem_nan 0 1 0 None 0 5%float 1%float 3%float = Val (mem_nan, 0)
  ∧ ∃ m', filter LOWER mem3 0 1 1 None 0 5%float 1%float 3%float = Val (m', 1).
Proof.
  split; [vm_compute; reflexivity|]. split; [reflexivity|].
  eexists. vm_compute. reflexivity.
Qed.

(** C3, the claim as stated fails for the maximum degree zero: the call
    is valid and returns, and the column of W is not the vector of V,
    which is what a filter of degree 0 gives. *)
Lemma degree_zero_leaves_W :
  valid_call mem3 0 1 0 None 0 ∧ block_rows mem3
  ∧ filter LOWER mem3 0 1 0 None 0 5%float (-1)%float 1%float = Val (mem3, 0)
  ∧ Cols (mW mem3) !! 0%nat = Some [0; 0]%float
  ∧ filtered LOWER (mA mem3) 5%float (-1)%float 1%float (degree_at 0 None 0)
      [1; 0]%float [0; 0]%float = [1; 0]%float
  ∧ ¬ ∃ m' ret,
        filter LOWER mem3 0 1 0 None 0 5%float (-1)%float 1%float = Val (m', ret)
        ∧ Cols (mW m') !! 0%nat
          = Some (filtered LOWER (mA mem3) 5%float (-1)%float 1%float
                    (degree_at 0 None 0) [1; 0]%float [0; 0]%float).
Proof.
  split; [valid_now|]. split; [valid_now|].
  split; [reflexivity|]. split; [reflexivity|]. split; [reflexivity|].
  intros (m' & ret & Hret & Hcol).
  change (filter LOWER mem3 0 1 0 None 0 5%float (-1)%float 1%float)
    with (Val (Sc := DoubleScalars) (mem3, 0)) in Hret.
  injection Hret as <- <-.
  apply (f_equal (λ o, match o with
                       | Some (x :: _) => PrimFloat.ltb x 0.5
                       | _ => false
                       end)) in Hcol.
  vm_compute in Hcol. discriminate.
Qed.

(** C2 at the failing input: with [deg = 1] and the schedule [2] the
    vector is filtered with degree 2, and the column of degree 2 is not
    the one of degree 1. *)
Lemma degree_above_deg_is_used :
  valid_call mem3 0 1 1 (Some [2]) 1
  ∧ ∃ m',
      filter LOWER mem3 0 1 1 (Some [2]) 1 5%float (-1)%float 1%float = Val (m', 2)
      ∧ Cols (mW m') !! 0%nat
        = Some (filtered LOWER A2 5%float (-1)%float 1%float 2 [1; 0]%float [0; 0]%float)
      ∧ filtered LOWER A2 5%float (-1)%float 1%float 2 [1; 0]%float [0; 0]%float
        = [0x1.7829cbc14e5ep-3; 0x1.a1f58d0fac687p-3]%float
      ∧ filtered LOWER A2 5%float (-1)%float 1%float (Z.to_nat (Z.min 2 1))
          [1; 0]%float [0; 0]%float
        = [0x1.999999999999ap-2; 0x1.999999999999ap-3]%float.
Proof.
  split; [valid_now|]. eexists.
  split; [vm_compute; reflexivity|]. split; [vm_compute; reflexivity|].
  split; vm_compute; reflexivity.
Qed.

(** Why the diagonal is written back and not shifted back (line 225 is
    commented out): adding [c] after subtracting it does not give the
    entry back in binary64. *)
Lemma shifting_back_loses_bits :
  Cols (ShiftDiagonal (ShiftDiagonal (mkDist 1 [[1%float]]) (- 1e16)%float) 1e16%float)
  = [[0%float]].
Proof. reflexivity. Qed.

(** ** The further properties on binary64 data *)

Lemma cost_with_schedule_witness :
  valid_call mem3 0 3 4 (Some [1; 2]) 2
  ∧ (∃ m', filter LOWER mem3 0 3 4 (Some [1; 2]) 2 5%float (-1)%float 1%float
           = Val (m', scheduled_cost 3 4 (Some [1; 2])))
  ∧ scheduled_cost 3 4 (Some [1; 2]) = degrees_applied 3 4 (Some [1; 2]).
Proof.
  assert (Hv : valid_call mem3 0 3 4 (Some [1; 2]) 2) by valid_now.
  split; [exact Hv|].
  apply (cost_with_schedule LOWER mem3 0 3 4 (Some [1; 2]) 2 5%float (-1)%float 1%float Hv).
  vm_compute. reflexivity.
Defined.

(** The cost of that call: 1 + 2 for the two scheduled vectors and 4 for
    the third. *)
Lemma scheduled_cost_example :
  scheduled_cost 3 4 (Some [1; 2]) = 7
  ∧ ∃ m', filter LOWER mem3 0 3 4 (Some [1; 2]) 2 5%float (-1)%float 1%float = Val (m', 7).
Proof. split; [reflexivity|]. eexists. vm_compute. reflexivity. Qed.

Lemma schedule_used_up_witness :
  valid_call mem3 0 3 4 (Some [1; 2]) 2
  ∧ ∃ fr,
      filter_run SEARCH_NAN LOWER mem3 0 3 4 (Some [1; 2]) 2 5%float (-1)%float 1%float
      = Val fr
      ∧ j fr = 2 ∧ start fr = 0 + 2 ∧ width fr = 3 - 2.
Proof.
  assert (Hv : valid_call mem3 0 3 4 (Some [1; 2]) 2) by valid_now.
  split; [exact Hv|]. eexists. split; [vm_compute; reflexivity|].
  apply (schedule_used_up SEARCH_NAN LOWER mem3 0 3 4 [1; 2] 2 5%float (-1)%float 1%float
           _ Hv).
  vm_compute. reflexivity.
Defined.

Lemma pass_of_the_loop_witness :
  let fr := mkFrame A2 V3 W3 0 3 0 2%float 3 [] in
  ∃ fr',
    iteration LOWER 2 1%float 2%float (Some [2; 2; 3]) 3 2 fr = Val fr'
    ∧ A fr' = A fr
    ∧ total_vcts_filtered fr' = total_vcts_filtered fr + width fr
    ∧ width fr' ≤ width fr ∧ start fr ≤ start fr'
    ∧ width fr - width fr' = j fr' - j fr
    ∧ start fr' - start fr = j fr' - j fr.
Proof.
  intros fr. eexists. split; [vm_compute; reflexivity|].
  apply (pass_of_the_loop (Sc := DoubleScalars) LOWER 2 1%float 2%float (Some [2; 2; 3]) 3 2 fr).
  vm_compute. reflexivity.
Defined.

Lemma V_holds_last_even_term_witness :
  valid_call mem3 0 3 3 (Some [1; 2; 3]) 3
  ∧ ∃ m' ret,
      filter LOWER mem3 0 3 3 (Some [1; 2; 3]) 3 5%float (-1)%float 1%float = Val (m', ret)
      ∧ ∀ (k : nat) v w,
          Z.of_nat k < 3 →
          Cols (mV mem3) !! (Z.to_nat 0 + k)%nat = Some v →
          Cols (mW mem3) !! (Z.to_nat 0 + k)%nat = Some w →
          Cols (mV m') !! (Z.to_nat 0 + k)%nat
          = Some (scratch_column LOWER (mA mem3) 5%float (-1)%float 1%float
                    (degree_at 3 (Some [1; 2; 3]) k) v w).
Proof.
  assert (Hv : valid_call mem3 0 3 3 (Some [1; 2; 3]) 3) by valid_now.
  split; [exact Hv|].
  apply (V_holds_last_even_term LOWER mem3 0 3 3 (Some [1; 2; 3]) 3
           5%float (-1)%float 1%float Hv).
  - vm_compute. discriminate.
  - vm_compute. reflexivity.
Defined.

(** V after that call: the first column is the vector of the caller, the
    other two hold the terms of degree 2. *)
Lemma V_after_schedule_123 :
  ∃ m', filter LOWER mem3 0 3 3 (Some [1; 2; 3]) 3 5%float (-1)%float 1%float = Val (m', 6)
        ∧ Cols (mV m') !! 0%nat = Some [1; 0]%float
        ∧ Cols (mV m') !! 1%nat = Cols (mW m') !! 1%nat
        ∧ Cols (mV m') !! 2%nat ≠ Cols (mV mem3) !! 2%nat.
Proof.
  eexists. split; [vm_compute; reflexivity|]. split; [reflexivity|].
  split; [vm_compute; reflexivity|].
  intros H.
  apply (f_equal (λ o, match o with
                       | Some (x :: _) => PrimFloat.ltb x 0.5
                       | _ => false
                       end)) in H.
  vm_compute in H. discriminate.
Qed.

Lemma degree_one_keeps_V_witness :
  valid_call mem3 0 3 1 (Some [1; 1]) 2
  ∧ ∃ m' ret,
      filter LOWER mem3 0 3 1 (Some [1; 1]) 2 5%float (-1)%float 1%float = Val (m', ret)
      ∧ mV m' = mV mem3.
Proof.
  assert (Hv : valid_call mem3 0 3 1 (Some [1; 1]) 2) by valid_now.
  split; [exact Hv|].
  apply (degree_one_keeps_V LOWER mem3 0 3 1 (Some [1; 1]) 2 5%float (-1)%float 1%float Hv).
  - reflexivity.
  - vm_compute. reflexivity.
Defined.

Lemma shapes_kept_witness :
  valid_call mem3 1 2 4 (Some [2; 3]) 2
  ∧ ∃ m' ret,
      filter LOWER mem3 1 2 4 (Some [2; 3]) 2 5%float (-1)%float 1%float = Val (m', ret)
      ∧ Height (mV m') = Height (mV mem3)
      ∧ column_lengths (mV m') = column_lengths (mV mem3)
      ∧ Height (mW m') = Height (mW mem3)
      ∧ column_lengths (mW m') = column_lengths (mW mem3).
Proof.
  assert (Hv : valid_call mem3 1 2 4 (Some [2; 3]) 2) by valid_now.
  split; [exact Hv|].
  apply (shapes_kept LOWER mem3 1 2 4 (Some [2; 3]) 2 5%float (-1)%float 1%float Hv).
  vm_compute. reflexivity.
Defined.

Lemma empty_range_changes_nothing_witness :
  valid_call mem3 1 0 3 None 0
  ∧ filter LOWER mem3 1 0 3 None 0 5%float (-1)%float 1%float = Val (mem3, 0).
Proof.
  assert (Hv : valid_call mem3 1 0 3 None 0) by valid_now.
  split; [exact Hv|].
  apply (empty_range_changes_nothing LOWER mem3 1 3 None 0 5%float (-1)%float 1%float Hv).
  vm_compute. reflexivity.
Defined.

Lemma valid_call_returns_or_exits_witness :
  valid_call mem3 1 2 4 (Some [2; 3]) 2
  ∧ ((∃ m' ret,
        filter LOWER mem3 1 2 4 (Some [2; 3]) 2 5%float 1%float 3%float = Val (m', ret))
     ∨ (∃ mm out,
          filter LOWER mem3 1 2 4 (Some [2; 3]) 2 5%float 1%float 3%float
          = Exits mm out)).
Proof.
  assert (Hv : valid_call mem3 1 2 4 (Some [2; 3]) 2) by valid_now.
  split; [exact Hv|].
  apply (valid_call_returns_or_exits LOWER mem3 1 2 4 (Some [2; 3]) 2
           5%float 1%float 3%float Hv).
Defined.

Lemma exit_only_at_scans_witness :
  filter LOWER mem_nan 0 1 1 None 0 5%float (-1)%float 1%float
  = Exits (mkMem (ShiftDiagonal A2 (- ((1 + -1) / 2))%float) Vnan W3)
      [ContainsNan BufV 108]
  ∧ mA (mkMem (ShiftDiagonal A2 (- ((1 + -1) / 2))%float) Vnan W3)
    = ShiftDiagonal (mA mem_nan) (ropp (rdiv (radd 1%float (-1)%float) r_two))
  ∧ mV (mkMem (ShiftDiagonal A2 (- ((1 + -1) / 2))%float) Vnan W3) = mV mem_nan
  ∧ [ContainsNan BufV 108] ≠ [].
Proof.
  split; [vm_compute; reflexivity|].
  apply (exit_only_at_scans LOWER mem_nan 0 1 1 None 0 5%float (-1)%float 1%float).
  vm_compute. reflexivity.
Defined.

Lemma schedule_read_past_end_witness :
  Z.of_nat (length [1; 2]) < 3
  ∧ filter LOWER mem3 0 3 3 (Some [1; 2]) 3 5%float (-1)%float 1%float = Undef.
Proof. split; [simpl; lia|]. apply schedule_read_past_end. simpl. lia. Defined.

Lemma negative_start_passes_assertions_witness :
  -1 < 0
  ∧ AssertValidSubmatrix (mV mem3) 0 0 (Z.of_nat (Height (mA mem3))) (-1 + 2) = true
  ∧ AssertValidSubmatrix (mW mem3) 0 0 (Z.of_nat (Height (mA mem3))) (-1 + 2) = true
  ∧ filter LOWER mem3 (-1) 2 1 None 0 5%float (-1)%float 1%float = Undef.
Proof.
  split; [lia|]. split; [reflexivity|]. split; [reflexivity|].
  apply (negative_start_passes_assertions LOWER mem3 (-1) 2 1 None 0);
    [lia|reflexivity|reflexivity|discriminate].
Defined.

Lemma negative_odd_degree_is_degree_one_witness :
  -3 < 0 ∧ Z.rem (-3) 2 ≠ 0
  ∧ filter LOWER mem3 0 3 (-3) None 0 5%float (-1)%float 1%float
    = filter LOWER mem3 0 3 1 None 0 5%float (-1)%float 1%float.
Proof.
  split; [lia|]. split; [discriminate|].
  apply negative_odd_degree_is_degree_one; [lia|discriminate].
Defined.

Lemma unmatched_first_entry_disables_schedule_witness :
  filter LOWER mem3 0 3 3 (Some [5; 1]) 2 5%float (-1)%float 1%float
  = filter LOWER mem3 0 3 3 None 2 5%float (-1)%float 1%float.
Proof.
  apply (unmatched_first_entry_disables_schedule LOWER mem3 0 3 3 [5; 1] 2
           5%float (-1)%float 1%float 5 1);
    try reflexivity; unfold INT_MIN, INT_MAX; simpl; lia.
Defined.

(** What that call returns: the cost of three vectors at degree 3, where
    the schedule asked for 5 and 1. *)
Lemma unsorted_schedule_cost :
  ∃ m', filter LOWER mem3 0 3 3 (Some [5; 1]) 2 5%float (-1)%float 1%float = Val (m', 9).
Proof. eexists. vm_compute. reflexivity. Qed.

Lemma rows_below_operator_untouched_witness :
  valid_call Tall.mem_tall 0 2 2 None 0
  ∧ ∃ m' ret,
      filter LOWER Tall.mem_tall 0 2 2 None 0 5%float (-1)%float 1%float = Val (m', ret)
      ∧ ∀ (c r : nat), (Height (mA Tall.mem_tall) ≤ r)%nat →
          Get (mV m') r c = Get (mV Tall.mem_tall) r c
          ∧ Get (mW m') r c = Get (mW Tall.mem_tall) r c.
Proof.
  assert (Hv : valid_call Tall.mem_tall 0 2 2 None 0) by valid_now.
  split; [exact Hv|].
  apply (rows_below_operator_untouched LOWER Tall.mem_tall 0 2 2 None 0
           5%float (-1)%float 1%float Hv).
  vm_compute. reflexivity.
Defined.

(** The third row after that call of degree 2, in which both blocks
    were written. *)
Lemma third_row_after_degree_two :
  ∃ m', filter LOWER Tall.mem_tall 0 2 2 None 0 5%float (-1)%float 1%float = Val (m', 4)
        ∧ Get (mV m') 2 0 = 7%float ∧ Get (mV m') 2 1 = 8%float
        ∧ Get (mW m') 2 0 = 9%float ∧ Get (mW m') 2 1 = 9%float
        ∧ Get (mV m') 0 0 ≠ Get (mV Tall.mem_tall) 0 0.
Proof.
  eexists. split; [vm_compute; reflexivity|].
  repeat (split; [reflexivity|]).
  intros H. apply (f_equal (λ x, PrimFloat.ltb x 0.5)) in H.
  vm_compute in H. discriminate.
Qed.
